(** * cc-jukebox: the DFPWM transcoding pipeline and the manifest merge

    A shallow embedding of [encode_song.py] and [convert_mp3.py].

    Python integers are unbounded, so they are modelled by [Z]; [bytes] objects
    by [list byte]; Python lists of integers by [list Z]; the [bytearray] built
    by the encoder by a [list Z] whose [append] checks the 0..255 range as
    Python does.  Exceptions are values of [exn] carried by the [result] monad.
    Python floats (the resampling cursor) are IEEE binary64 numbers, modelled by
    the Standard Library's [spec_float] and its rounding operations at
    precision 53 and maximal exponent 1024. *)

From Stdlib Require Import String Ascii ZArith List Bool Lia.
From Stdlib Require Import Strings.Byte.
From Stdlib Require Import SpecFloat.
Import ListNotations.
Open Scope Z_scope.

(** ** Exceptions and the error monad *)

Inductive exn : Type :=
| ValueError
| IndexError
| TypeError
| AttributeError
| ZeroDivisionError
| OverflowError
| StructError.

Inductive result (A : Type) : Type :=
| Ok (a : A)
| Raise (e : exn).

Arguments Ok {A} a.
Arguments Raise {A} e.

Definition bind {A B : Type} (r : result A) (k : A -> result B) : result B :=
  match r with
  | Ok a => k a
  | Raise e => Raise e
  end.

Notation "x <- r ;; k" := (bind r (fun x => k))
  (at level 61, r at next level, right associativity).

Definition result_map {A B : Type} (f : A -> B) (r : result A) : result B :=
  match r with
  | Ok a => Ok (f a)
  | Raise e => Raise e
  end.

(** ** Python primitives used by the encoder *)

(** [a << n] on Python integers: a negative shift count raises ValueError. *)
Definition py_lshift (a n : Z) : result Z :=
  if n <? 0 then Raise ValueError else Ok (Z.shiftl a n).

(** [bytearray.append(v)]: the value must be in range(0, 256). *)
Definition bytearray_append (b : list Z) (v : Z) : result (list Z) :=
  if (0 <=? v) && (v <? 256) then Ok (b ++ [v]) else Raise ValueError.

(** ** The per-sample step as the specification words it (section 4.3) *)

Module DeltaSpec.

Record state : Type := mkState {
  charge : Z;
  strength : Z;
  previousBit : bool
}.

Definition initial : state :=
  {| charge := 0; strength := 0; previousBit := false |}.

Definition clamp (lo hi x : Z) : Z := Z.max lo (Z.min hi x).

(** Items 1 to 6 of the per-sample step: the new state and the emitted bit. *)
Definition step (st : state) (sample : Z) : state * bool :=
  let bit := sample >? charge st in
  let strength' :=
    clamp 0 63 (if Bool.eqb bit (previousBit st)
                then strength st + 1 else strength st - 1) in
  let change := Z.shiftl strength' 2 + 2 in
  let charge' :=
    clamp (-128) 127 (if bit then charge st + change else charge st - change) in
  ({| charge := charge'; strength := strength'; previousBit := bit |}, bit).

(** The states reached and the bits emitted, one pair per sample, in order. *)
Fixpoint run (st : state) (samples : list Z) : list (state * bool) :=
  match samples with
  | [] => []
  | sample :: rest =>
      let r := step st sample in r :: run (fst r) rest
  end.

End DeltaSpec.

(** ** encode_dfpwm *)

Module Encoder.

(** The local variables of [encode_dfpwm].  [bit], [step] and [change] are
    assigned inside the loop only; they are unbound ([None]) before the first
    iteration. *)
Record locals : Type := mkLocals {
  charge : Z;
  strength : Z;
  previous_bit : bool;
  out_bytes : list Z;
  current_byte : Z;
  bit_idx : Z;
  bit : option bool;
  step : option Z;
  change : option Z
}.

Definition initial : locals :=
  {| charge := 0; strength := 0; previous_bit := false;
     out_bytes := []; current_byte := 0; bit_idx := 0;
     bit := None; step := None; change := None |}.

(** The part of the loop body that packs [b] (lines 55-62), applied to local
    variables whose predictor fields are already updated. *)
Definition pack_bit (st : locals) (b : bool) : result locals :=
  cb <- (if b
         then (m <- py_lshift 1 (bit_idx st) ;; Ok (Z.lor (current_byte st) m))
         else Ok (current_byte st)) ;;
  let bi := bit_idx st + 1 in
  if bi =? 8 then
    ob <- bytearray_append (out_bytes st) cb ;;
    Ok {| charge := charge st; strength := strength st;
          previous_bit := previous_bit st;
          out_bytes := ob; current_byte := 0; bit_idx := 0;
          bit := bit st; step := step st; change := change st |}
  else
    Ok {| charge := charge st; strength := strength st;
          previous_bit := previous_bit st;
          out_bytes := out_bytes st; current_byte := cb; bit_idx := bi;
          bit := bit st; step := step st; change := change st |}.

(** One iteration of [for sample in pcm_samples] (lines 23-62). *)
Definition loop_body (st : locals) (sample : Z) : result locals :=
  let b := sample >? charge st in
  let s := if Bool.eqb b (previous_bit st)
           then strength st + 1 else strength st - 1 in
  let s := if s <? 0 then 0 else s in
  let s := if s >? 63 then 63 else s in
  let stp := Z.shiftl s 2 + (if s <? 50 then 1 else 0) in
  let chg := Z.shiftl s 2 + 2 in
  let c := if b then charge st + chg else charge st - chg in
  let c := if c >? 127 then 127 else c in
  let c := if c <? -128 then -128 else c in
  pack_bit {| charge := c; strength := s; previous_bit := b;
              out_bytes := out_bytes st; current_byte := current_byte st;
              bit_idx := bit_idx st;
              bit := Some b; step := Some stp; change := Some chg |} b.

(** The same iteration with the assignment to [step] (line 37) deleted. *)
Definition loop_body_nostep (st : locals) (sample : Z) : result locals :=
  let b := sample >? charge st in
  let s := if Bool.eqb b (previous_bit st)
           then strength st + 1 else strength st - 1 in
  let s := if s <? 0 then 0 else s in
  let s := if s >? 63 then 63 else s in
  let chg := Z.shiftl s 2 + 2 in
  let c := if b then charge st + chg else charge st - chg in
  let c := if c >? 127 then 127 else c in
  let c := if c <? -128 then -128 else c in
  pack_bit {| charge := c; strength := s; previous_bit := b;
              out_bytes := out_bytes st; current_byte := current_byte st;
              bit_idx := bit_idx st;
              bit := Some b; step := step st; change := Some chg |} b.

Section Loop.

Variable body : locals -> Z -> result locals.

(** The [for] loop: the local variables after the last sample. *)
Fixpoint for_loop (st : locals) (pcm_samples : list Z) : result locals :=
  match pcm_samples with
  | [] => Ok st
  | sample :: rest => st' <- body st sample ;; for_loop st' rest
  end.

(** The same loop, recording the local variables at the end of every
    iteration. *)
Fixpoint run_trace (st : locals) (pcm_samples : list Z)
  : result (list locals) :=
  match pcm_samples with
  | [] => Ok []
  | sample :: rest =>
      st' <- body st sample ;;
      tr <- run_trace st' rest ;;
      Ok (st' :: tr)
  end.

(** Lines 64-67: flush the partial byte and return. *)
Definition finish (st : locals) : result (list Z) :=
  if bit_idx st >? 0
  then bytearray_append (out_bytes st) (current_byte st)
  else Ok (out_bytes st).

Definition encode_with (pcm_samples : list Z) : result (list Z) :=
  st <- for_loop initial pcm_samples ;; finish st.

End Loop.

Definition encode_dfpwm : list Z -> result (list Z) := encode_with loop_body.

Definition encode_dfpwm_nostep : list Z -> result (list Z) :=
  encode_with loop_body_nostep.

(** The bits assigned to [bit], one per recorded iteration. *)
Definition bits_of (tr : list locals) : list bool :=
  map (fun st => match bit st with Some b => b | None => false end) tr.

(** The range of the predictor state named by the docstring and the clamps. *)
Definition in_range (st : locals) : Prop :=
  -128 <= charge st <= 127 /\ 0 <= strength st <= 63.

(** The packer's own invariant on its three variables. *)
Definition packer_ok (st : locals) : Prop :=
  0 <= bit_idx st < 8 /\
  0 <= current_byte st < 2 ^ bit_idx st /\
  Forall (fun v => 0 <= v < 256) (out_bytes st).

(** *** Reading a packed stream back, least significant bit first *)

Definition byte_bits (v : Z) : list bool :=
  map (Z.testbit v) [0; 1; 2; 3; 4; 5; 6; 7].

Definition unpack_bits (bs : list Z) : list bool := flat_map byte_bits bs.

(** The bits held by the packer: those of the finished bytes, then the
    [bit_idx] low bits of [current_byte]. *)
Definition stream (st : locals) : list bool :=
  unpack_bits (out_bytes st)
  ++ firstn (Z.to_nat (bit_idx st)) (byte_bits (current_byte st)).

(** Forget the value of the local variable [step]. *)
Definition without_step (st : locals) : locals :=
  {| charge := charge st; strength := strength st;
     previous_bit := previous_bit st;
     out_bytes := out_bytes st; current_byte := current_byte st;
     bit_idx := bit_idx st;
     bit := bit st; step := None; change := change st |}.

(** The predictor state and the bit of a recorded iteration, as the
    specification names them. *)
Definition view (st : locals) : DeltaSpec.state * bool :=
  ({| DeltaSpec.charge := charge st;
      DeltaSpec.strength := strength st;
      DeltaSpec.previousBit := previous_bit st |},
   match bit st with Some b => b | None => false end).

(** The predictor at rest, with the packer at the start or in the middle of
    a byte of silence. *)
Definition at_rest (st : locals) : Prop :=
  charge st = 0 /\ strength st = 0 /\ previous_bit st = false /\
  ((bit_idx st = 0 /\ current_byte st = 0) \/
   (bit_idx st = 4 /\ current_byte st = 6)).

End Encoder.

(** ** Python sequences and floats *)

(** [seq[i]] on a Python sequence: a negative index counts from the end. *)
Definition py_getitem {A : Type} (l : list A) (i : Z) : result A :=
  let n := Z.of_nat (length l) in
  let j := if i <? 0 then i + n else i in
  if (j <? 0) || (n <=? j) then Raise IndexError
  else match nth_error l (Z.to_nat j) with
       | Some x => Ok x
       | None => Raise IndexError
       end.

(** [range(start, stop, step)] as the list of its values. *)
Definition py_range (start stop step : Z) : result (list Z) :=
  if step =? 0 then Raise ValueError
  else
    let count :=
      if step >? 0 then (stop - start + step - 1) / step
      else (start - stop - step - 1) / (- step) in
    Ok (map (fun k => start + Z.of_nat k * step) (seq 0 (Z.to_nat count))).

(** Binary64 addition and division, rounding to nearest, ties to even. *)
Definition float_add : spec_float -> spec_float -> spec_float :=
  SFadd 53 1024.

Definition float_div : spec_float -> spec_float -> spec_float :=
  SFdiv 53 1024.

(** The binary64 number whose value is the whole number [n], for
    0 <= n < 2^53: a mantissa of 53 digits, or zero. *)
Definition whole (n : Z) : spec_float :=
  match n with
  | Zpos _ =>
      S754_finite false (Z.to_pos (n * 2 ^ (52 - Z.log2 n))) (Z.log2 n - 52)
  | _ => S754_zero false
  end.

(** A shifted mantissa with no bit lost. *)
Definition exact (m : Z) : shr_record :=
  {| shr_m := m; shr_r := false; shr_s := false |}.

(** A Python integer as an exact (not yet rounded) binary number. *)
Definition int_exact (z : Z) : spec_float :=
  match z with
  | Z0 => S754_zero false
  | Zpos p => S754_finite false p 0
  | Zneg p => S754_finite true p 0
  end.

(** [a / b] on Python integers: the correctly rounded binary64 quotient;
    ZeroDivisionError for [b = 0], OverflowError when the quotient is too
    large for a float. *)
Definition py_truediv (a b : Z) : result spec_float :=
  if b =? 0 then Raise ZeroDivisionError
  else match float_div (int_exact a) (int_exact b) with
       | S754_infinity _ => Raise OverflowError
       | q => Ok q
       end.

(** [x < n] for a float [x] and an integer [n]: Python compares the exact
    values. *)
Definition float_lt_int (x : spec_float) (n : Z) : bool :=
  match x with
  | S754_zero _ => 0 <? n
  | S754_infinity s => s
  | S754_nan => false
  | S754_finite s m e =>
      let v := if s then Zneg m else Zpos m in
      if 0 <=? e then v * 2 ^ e <? n else v <? n * 2 ^ (- e)
  end.

(** [int(x)]: truncation toward zero. *)
Definition py_int (x : spec_float) : result Z :=
  match x with
  | S754_zero _ => Ok 0
  | S754_infinity _ => Raise OverflowError
  | S754_nan => Raise ValueError
  | S754_finite s m e =>
      let a := if 0 <=? e then Zpos m * 2 ^ e else Zpos m / 2 ^ (- e) in
      Ok (if s then - a else a)
  end.

(** ** Sample extraction and resampling ([main] and [process_file]) *)

Module Wav.

Definition byte_val (b : byte) : Z := Z.of_N (Byte.to_N b).

(** The value of the two bytes [lo], [hi] read as a little-endian signed
    16-bit integer (format '<h'). *)
Definition signed16 (lo hi : Z) : Z :=
  let u := lo + 256 * hi in
  if u >=? 32768 then u - 65536 else u.

(** [struct.unpack_from('<h', frames, offset)[0]]. *)
Definition unpack_from_h (frames : list byte) (offset : Z) : result Z :=
  let n := Z.of_nat (length frames) in
  let off := if offset <? 0 then offset + n else offset in
  if (off <? 0) || (n - off <? 2) then Raise StructError
  else
    Ok (signed16 (byte_val (nth (Z.to_nat off) frames x00))
                 (byte_val (nth (Z.to_nat (off + 1)) frames x00))).

(** The helper [get_sample] of [main], closed over [sampwidth] and
    [frames]. *)
Definition get_sample (sampwidth : Z) (frames : list byte) (idx : Z)
  : result Z :=
  if sampwidth =? 1 then
    b <- py_getitem frames idx ;; Ok (byte_val b - 128)
  else if sampwidth =? 2 then
    val <- unpack_from_h frames idx ;; Ok (val / 256)
  else Ok 0.

(** The body of [for i in range(0, len(frames), step)]: one mono sample. *)
Definition frame_sample (nchannels sampwidth : Z) (frames : list byte) (i : Z)
  : result Z :=
  val <- get_sample sampwidth frames i ;;
  if nchannels >? 1 then
    chs <- py_range 1 nchannels 1 ;;
    val <- fold_left
             (fun acc ch =>
                v <- acc ;;
                x <- get_sample sampwidth frames (i + ch * sampwidth) ;;
                Ok (v + x))
             chs (Ok val) ;;
    Ok (val / nchannels)
  else Ok val.

Fixpoint collect {A B : Type} (f : A -> result B) (l : list A)
  : result (list B) :=
  match l with
  | [] => Ok []
  | a :: rest => b <- f a ;; bs <- collect f rest ;; Ok (b :: bs)
  end.

(** Step 2 of [main]: the mono 8-bit samples of the frames. *)
Definition mono_samples (nchannels sampwidth : Z) (frames : list byte)
  : result (list Z) :=
  idxs <- py_range 0 (Z.of_nat (length frames)) (sampwidth * nchannels) ;;
  collect (frame_sample nchannels sampwidth frames) idxs.

(** The [while idx < len(samples)] loop.  [None] means that the loop is still
    running when the fuel (the number of loop tests allowed) is used up. *)
Fixpoint resample_loop (fuel : nat) (samples : list Z) (ratio idx : spec_float)
  (new_samples : list Z) : option (result (list Z)) :=
  match fuel with
  | O => None
  | S fuel' =>
      if float_lt_int idx (Z.of_nat (length samples)) then
        match (i <- py_int idx ;; py_getitem samples i) with
        | Raise e => Some (Raise e)
        | Ok x =>
            resample_loop fuel' samples ratio (float_add idx ratio)
              (new_samples ++ [x])
        end
      else Some (Ok new_samples)
  end.

(** The positions the cursor of that loop selects: the loop with the list
    reduced to its length [len].  Each position is the index [int(idx)] after
    Python's treatment of negative indices. *)
Fixpoint cursor_loop (fuel : nat) (len : Z) (ratio idx : spec_float)
  : option (result (list Z)) :=
  match fuel with
  | O => None
  | S fuel' =>
      if float_lt_int idx len then
        match py_int idx with
        | Raise e => Some (Raise e)
        | Ok i =>
            let j := if i <? 0 then i + len else i in
            if (j <? 0) || (len <=? j) then Some (Raise IndexError)
            else option_map (result_map (cons j))
                   (cursor_loop fuel' len ratio (float_add idx ratio))
        end
      else Some (Ok [])
  end.

(** Step 3 of [main]. *)
Definition resample (fuel : nat) (framerate target_rate : Z) (samples : list Z)
  : option (result (list Z)) :=
  if negb (target_rate =? framerate) then
    match py_truediv framerate target_rate with
    | Raise e => Some (Raise e)
    | Ok ratio => resample_loop fuel samples ratio (S754_zero false) []
    end
  else Some (Ok samples).

(** The binary64 number 6.0 = 6755399441055744 * 2^-50, the ratio of the rates
    48000 and 8000. *)
Definition six : spec_float := S754_finite false 6755399441055744 (-50).

(** Steps 2 to 4 of [main]: from the frames read from the WAV file to
    [dfpwm_data]. *)
Definition main_encode (fuel : nat) (nchannels sampwidth framerate : Z)
  (frames : list byte) (target_rate : Z) : option (result (list Z)) :=
  match mono_samples nchannels sampwidth frames with
  | Raise e => Some (Raise e)
  | Ok samples =>
      match resample fuel framerate target_rate samples with
      | None => None
      | Some (Raise e) => Some (Raise e)
      | Some (Ok samples') => Some (Encoder.encode_dfpwm samples')
      end
  end.

(** [process_file], lines 66-71: the 16-bit frames to 8-bit samples. *)
Definition process_file_samples (frames : list byte) : result (list Z) :=
  let total_samples := Z.of_nat (length frames) / 2 in
  idxs <- py_range 0 total_samples 1 ;;
  collect (fun i => val <- unpack_from_h frames (i * 2) ;; Ok (val / 256)) idxs.

End Wav.

(** ** update_manifest *)

Module Manifest.

Open Scope string_scope.

(** The values [json.load] returns.  A JSON object becomes a Python dict, which
    keeps its keys in insertion order: an association list of keys and values,
    looked up by the first match. *)
#[warnings="-register-all"]
Inductive json : Type :=
| JNull
| JBool (b : bool)
| JInt (n : Z)
| JFloat (x : spec_float)
| JStr (s : string)
| JList (l : list json)
| JDict (d : list (string * json)).

Definition dict := list (string * json).

Fixpoint dict_get (d : dict) (k : string) : option json :=
  match d with
  | [] => None
  | (k', v) :: rest => if String.eqb k' k then Some v else dict_get rest k
  end.

Definition dict_mem (d : dict) (k : string) : bool :=
  match dict_get d k with Some _ => true | None => false end.

(** [d[k] = v]: an existing key keeps its position, a new key goes last. *)
Fixpoint dict_set (d : dict) (k : string) (v : json) : dict :=
  match d with
  | [] => [(k, v)]
  | (k', v') :: rest =>
      if String.eqb k' k then (k', v) :: rest
      else (k', v') :: dict_set rest k v
  end.

(** The file manifest.json: absent, present but rejected by [json.load], or
    holding a JSON document. *)
Inductive manifest_file : Type :=
| Missing
| Garbled
| Document (j : json).

(** The part of the file system the function touches: the manifest and the
    documents written to it so far, oldest first. *)
Record fs : Type := mkFs {
  manifest : manifest_file;
  written : list json
}.

(** What the function prints. *)
Inductive message : Type :=
| UpdatedManifest
| AlreadyInManifest.

(** [s.rsplit('.', 1)[0]]: the part of [s] before its last dot, all of [s]
    when it has none. *)
Fixpoint has_dot (s : string) : bool :=
  match s with
  | EmptyString => false
  | String c rest => Ascii.eqb c "."%char || has_dot rest
  end.

Fixpoint rsplit_dot_head (s : string) : string :=
  match s with
  | EmptyString => EmptyString
  | String c rest =>
      if has_dot rest then String c (rsplit_dot_head rest)
      else if Ascii.eqb c "."%char then EmptyString
      else String c (rsplit_dot_head rest)
  end.

(** [s.replace("\\", "/")]. *)
Fixpoint slashes (s : string) : string :=
  match s with
  | EmptyString => EmptyString
  | String c rest =>
      String (if Ascii.eqb c "\"%char then "/"%char else c) (slashes rest)
  end.

(** Two paths that differ in the direction of their slashes at most: they
    have the same length and, position by position, hold the same character
    or two slashes, each of either direction. *)
Definition is_slash (c : ascii) : bool :=
  Ascii.eqb c "\"%char || Ascii.eqb c "/"%char.

Fixpoint same_up_to_slashes (p q : string) : bool :=
  match p, q with
  | EmptyString, EmptyString => true
  | String a p', String b q' =>
      (Ascii.eqb a b || (is_slash a && is_slash b))
      && same_up_to_slashes p' q'
  | _, _ => false
  end.

(** The characters of a path, to say which of them [slashes] leaves. *)
Fixpoint chars (s : string) : list ascii :=
  match s with
  | EmptyString => []
  | String c rest => c :: chars rest
  end.

(** Lines 98-105: the document the function works on. *)
Definition load (m : manifest_file) : json :=
  match m with
  | Missing => JDict [("songs", JList [])]
  | Garbled => JDict [("songs", JList [])]
  | Document j => j
  end.

(** Lines 107-108 and the subscript [data["songs"]] of line 112: the dict with
    its "songs" key set, and the value under that key.  A list or a string
    supports [in] but no string subscript, so both branches of the test end
    in TypeError; the other values do not support [in]. *)
Definition songs_of (data : json) : result (dict * json) :=
  match data with
  | JDict d =>
      if negb (dict_mem d "songs")
      then Ok (dict_set d "songs" (JList []), JList [])
      else match dict_get d "songs" with
           | Some v => Ok (d, v)
           | None => Ok (dict_set d "songs" (JList []), JList [])
           end
  | _ => Raise TypeError
  end.

(** [song.get("file") == file_entry] for a dict [song]. *)
Definition file_is (song : dict) (file_entry : string) : bool :=
  match dict_get song "file" with
  | Some (JStr s) => String.eqb s file_entry
  | _ => false
  end.

(** Lines 111-115 over a list of songs: only a dict has [get]. *)
Fixpoint scan (songs : list json) (file_entry : string) : result bool :=
  match songs with
  | [] => Ok false
  | JDict song :: rest =>
      if file_is song file_entry then Ok true else scan rest file_entry
  | _ :: _ => Raise AttributeError
  end.

Definition new_entry (title file_entry : string) : json :=
  JDict [("title", JStr title); ("file", JStr file_entry)].

Section WithBasename.

(** [os.path.basename], which depends on the platform's path module. *)
Variable basename : string -> string.

Definition update_manifest (input_title_path output_path : string) (s : fs)
  : result (fs * message) :=
  let base_name := basename input_title_path in
  let title := rsplit_dot_head base_name in
  let file_entry := slashes output_path in
  let data := load (manifest s) in
  ds <- songs_of data ;;
  let (d, songs) := ds in
  match songs with
  | JList l =>
      exists_ <- scan l file_entry ;;
      if negb exists_ then
        let data' :=
          JDict (dict_set d "songs" (JList (l ++ [new_entry title file_entry]))) in
        Ok ({| manifest := Document data'; written := written s ++ [data'] |},
            UpdatedManifest)
      else Ok (s, AlreadyInManifest)
  | JDict [] => Raise AttributeError
  | JDict (_ :: _) => Raise AttributeError
  | JStr EmptyString => Raise AttributeError
  | JStr (String _ _) => Raise AttributeError
  | JNull => Raise TypeError
  | JBool _ => Raise TypeError
  | JInt _ => Raise TypeError
  | JFloat _ => Raise TypeError
  end.

End WithBasename.

(** The songs the function scans in the dict [d]: the list under "songs", or
    the empty list it stores there when the key is absent. *)
Definition scanned (d : dict) (l : list json) : Prop :=
  dict_get d "songs" = Some (JList l) \/
  (dict_get d "songs" = None /\ l = []).

(** The songs of a document, none when it has no list under "songs". *)
Definition songs_list (j : json) : list json :=
  match j with
  | JDict d => match dict_get d "songs" with
               | Some (JList l) => l
               | _ => []
               end
  | _ => []
  end.

(** Is [song] an entry whose file is [f]? *)
Definition has_file (f : string) (song : json) : bool :=
  match song with
  | JDict e => file_is e f
  | _ => false
  end.

Definition count_file (f : string) (songs : list json) : nat :=
  List.length (filter (has_file f) songs).

(** A catalog: missing or unreadable (read as empty), or an object whose
    "songs", when present, is a list of objects. *)
Definition is_entry (song : json) : Prop := exists e, song = JDict e.

Definition is_catalog (m : manifest_file) : Prop :=
  match m with
  | Missing => True
  | Garbled => True
  | Document (JDict d) =>
      match dict_get d "songs" with
      | None => True
      | Some (JList l) => Forall is_entry l
      | Some _ => False
      end
  | Document _ => False
  end.

End Manifest.

(** ** Frames of 16-bit PCM, as the properties below describe them *)

Module Frames.

(** A byte read as a signed 8-bit value. *)
Definition signed8 (b : byte) : Z :=
  let v := Wav.byte_val b in if v >=? 128 then v - 256 else v.

(** A 16-bit sample is held as its low byte and its high byte. *)
Definition sample16 : Type := (byte * byte)%type.

(** The 8-bit value [get_sample] reduces a 16-bit sample to. *)
Definition reduced (p : sample16) : Z :=
  Wav.signed16 (Wav.byte_val (fst p)) (Wav.byte_val (snd p)) / 256.

(** The bytes of one frame: its samples, one per channel, in order. *)
Definition frame_bytes (fr : list sample16) : list byte :=
  flat_map (fun p => [fst p; snd p]) fr.

(** The bytes of a sequence of frames. *)
Definition interleave (fs : list (list sample16)) : list byte :=
  flat_map frame_bytes fs.

Definition total (l : list Z) : Z := fold_right Z.add 0 l.

End Frames.

(** ** The installer text of [main] (step 5) *)

Module Installer.

(** Python strings are lists of characters here, sliced by position. *)
Definition str := list ascii.

(** The hexadecimal digit of a value in 0..15, in upper case. *)
Definition hex_digit (d : Z) : ascii :=
  match d with
  | 0 => "0" | 1 => "1" | 2 => "2" | 3 => "3" | 4 => "4"
  | 5 => "5" | 6 => "6" | 7 => "7" | 8 => "8" | 9 => "9"
  | 10 => "A" | 11 => "B" | 12 => "C" | 13 => "D" | 14 => "E"
  | _ => "F"
  end%char.

(** [f'{b:02X}'] for an element [b] of a bytearray, which is in range(256):
    two upper-case hexadecimal digits. *)
Definition format_02X (b : Z) : str := [hex_digit (b / 16); hex_digit (b mod 16)].

(** Line 146: [''.join(f'{b:02X}' for b in dfpwm_data)]. *)
Definition hex_data (dfpwm_data : list Z) : str := flat_map format_02X dfpwm_data.

(** [s[i:j]] on a Python sequence: both bounds are clipped to the sequence,
    negative bounds count from its end. *)
Definition py_slice {A : Type} (s : list A) (i j : Z) : list A :=
  let n := Z.of_nat (length s) in
  let clip k := if k <? 0 then Z.max 0 (k + n) else Z.min k n in
  firstn (Z.to_nat (clip j - clip i)) (skipn (Z.to_nat (clip i)) s).

(** Line 149: [[hex_data[i:i+80] for i in range(0, len(hex_data), 80)]]. *)
Definition chunks (hex : str) : result (list str) :=
  idxs <- py_range 0 (Z.of_nat (length hex)) 80 ;;
  Ok (map (fun i => py_slice hex i (i + 80)) idxs).

(** The value of a hexadecimal digit, as [tonumber(_, 16)] of the generated
    Lua script reads it, from the character's code: '0'..'9' are 48..57,
    'A'..'F' are 65..70 and 'a'..'f' are 97..102; [None] for a character that
    is no digit. *)
Definition digit_value (c : ascii) : option Z :=
  let n := Z.of_N (N_of_ascii c) in
  if (48 <=? n) && (n <=? 57) then Some (n - 48)
  else if (65 <=? n) && (n <=? 70) then Some (n - 55)
  else if (97 <=? n) && (n <=? 102) then Some (n - 87)
  else None.

(** The loop of the generated script (lines 163-166),
    [for i=1, #h, 2 do f.write(tonumber(h:sub(i, i+1), 16)) end], on a string
    [h] of hexadecimal digits: the bytes written, [None] when [tonumber]
    meets a character that is no digit and yields nil.  A last single
    character is read as a one-digit number. *)
Fixpoint lua_write_loop (h : str) : option (list Z) :=
  match h with
  | [] => Some []
  | [c] => match digit_value c with
           | Some v => Some [v]
           | None => None
           end
  | c1 :: c2 :: rest =>
      match digit_value c1, digit_value c2, lua_write_loop rest with
      | Some v1, Some v2, Some bs => Some (16 * v1 + v2 :: bs)
      | _, _, _ => None
      end
  end.

End Installer.

(** ** process_file, from the frames of the decoded WAV file on *)

Module Convert.

Import Manifest.

(** The file written at step 4. *)
Record saved : Type := mkSaved {
  dfpwm_filename : string;
  dfpwm_data : list Z
}.

(** Steps 2 to 5 of [process_file] (lines 64-86), given the frames read from
    the WAV file: the DFPWM file written, and the outcome of
    [update_manifest], whose exceptions [process_file] does not catch and
    which runs after the file is written. *)
Definition process_frames (basename : string -> string)
  (mp3_filename : string) (frames : list byte) (s : fs)
  : result (saved * result (fs * message)) :=
  samples <- Wav.process_file_samples frames ;;
  data <- Encoder.encode_dfpwm samples ;;
  let name := (rsplit_dot_head mp3_filename ++ ".dfpwm")%string in
  Ok ({| dfpwm_filename := name; dfpwm_data := data |},
      update_manifest basename mp3_filename name s).

End Convert.

(** * Proofs *)

Ltac inv H := inversion H; subst; clear H.

(** Split the conjunctions of the goal, leaving folded predicates whole. *)
Ltac conjs := repeat match goal with |- _ /\ _ => split end.

(** ** The encoder *)

Module EncoderFacts.

Import Encoder.


(** Evaluate the closed [Z.to_nat] counts of the goal. *)
Ltac count_bits :=
  repeat match goal with
         | |- context [Z.to_nat ?z] =>
             let n := eval vm_compute in (Z.to_nat z) in
             change (Z.to_nat z) with n
         end;
  cbn [firstn skipn byte_bits map app repeat].

(** *** Bits of a byte under construction *)

Lemma testbit_below (a i j : Z) :
  0 <= a < 2 ^ i -> i <= j -> Z.testbit a j = false.
Proof.
  intros [Ha Hlt] Hij.
  destruct (Z.eq_dec a 0) as [->|Hnz]; [apply Z.bits_0|].
  apply Z.bits_above_log2; [lia|].
  assert (Z.log2 a < i); [|lia].
  apply Z.log2_lt_pow2; lia.
Qed.

Lemma lor_fresh_bit (a i : Z) :
  0 <= i -> 0 <= a < 2 ^ i -> Z.lor a (Z.shiftl 1 i) = a + 2 ^ i.
Proof.
  intros Hi Ha. rewrite Z.shiftl_1_l.
  assert (Hland : Z.land a (2 ^ i) = 0).
  { apply Z.bits_inj'. intros n Hn.
    rewrite Z.land_spec, Z.pow2_bits_eqb, Z.bits_0 by lia.
    destruct (Z.eqb_spec i n) as [<-|Hne].
    - rewrite (testbit_below a i i) by lia. reflexivity.
    - apply andb_false_r. }
  rewrite <- Z.lxor_lor by exact Hland.
  symmetry. apply Z.add_nocarry_lxor. exact Hland.
Qed.

Lemma testbit_set (a i j : Z) :
  0 <= i -> 0 <= j ->
  Z.testbit (Z.lor a (Z.shiftl 1 i)) j = Z.testbit a j || (i =? j).
Proof.
  intros Hi Hj.
  rewrite Z.lor_spec, Z.shiftl_1_l, Z.pow2_bits_eqb by lia. reflexivity.
Qed.

(** The byte after line 56, with its new bound. *)
Lemma set_bit_bound (a i : Z) (b : bool) :
  0 <= i -> 0 <= a < 2 ^ i ->
  0 <= (if b then Z.lor a (Z.shiftl 1 i) else a) < 2 ^ (i + 1).
Proof.
  intros Hi Ha.
  assert (2 ^ (i + 1) = 2 * 2 ^ i) by (rewrite Z.pow_add_r by lia; lia).
  destruct b; [rewrite lor_fresh_bit by lia|]; lia.
Qed.

Lemma set_bit_bits (a i : Z) (b : bool) :
  0 <= i < 8 -> 0 <= a < 2 ^ i ->
  firstn (Z.to_nat (i + 1))
         (byte_bits (if b then Z.lor a (Z.shiftl 1 i) else a))
  = firstn (Z.to_nat i) (byte_bits a) ++ [b].
Proof.
  intros Hi Ha.
  assert (Hat : Z.testbit a i = false) by (apply (testbit_below a i); lia).
  assert (Hcases : i = 0 \/ i = 1 \/ i = 2 \/ i = 3 \/ i = 4 \/ i = 5 \/
                   i = 6 \/ i = 7) by lia.
  destruct b.
  - repeat (destruct Hcases as [->|Hcases]); try subst i;
      count_bits; rewrite ?testbit_set by lia;
      cbn [Z.eqb Pos.eqb orb]; rewrite ?orb_false_r, ?Hat; reflexivity.
  - repeat (destruct Hcases as [->|Hcases]); try subst i;
      count_bits; rewrite ?Hat; reflexivity.
Qed.

Lemma unpack_bits_app (xs ys : list Z) :
  unpack_bits (xs ++ ys) = unpack_bits xs ++ unpack_bits ys.
Proof. unfold unpack_bits. apply flat_map_app. Qed.

Lemma unpack_bits_length (xs : list Z) :
  length (unpack_bits xs) = (8 * length xs)%nat.
Proof.
  induction xs as [|x xs IH]; [reflexivity|].
  change (unpack_bits (x :: xs)) with (byte_bits x ++ unpack_bits xs).
  rewrite length_app, IH. cbn [byte_bits map length]. lia.
Qed.

Lemma byte_bits_padding (a i : Z) :
  0 <= i <= 8 -> 0 <= a < 2 ^ i ->
  skipn (Z.to_nat i) (byte_bits a) = repeat false (Z.to_nat (8 - i)).
Proof.
  intros Hi Ha.
  assert (Hcases : i = 0 \/ i = 1 \/ i = 2 \/ i = 3 \/ i = 4 \/ i = 5 \/
                   i = 6 \/ i = 7 \/ i = 8) by lia.
  assert (Hhi : forall j, i <= j -> Z.testbit a j = false)
    by (intros j Hj; apply (testbit_below a i); lia).
  repeat (destruct Hcases as [->|Hcases]); try subst i;
    count_bits; rewrite ?Hhi by lia; reflexivity.
Qed.

(** *** The clamps *)

Lemma strength_clamp (s : Z) :
  (let s1 := if s <? 0 then 0 else s in if s1 >? 63 then 63 else s1)
  = DeltaSpec.clamp 0 63 s.
Proof.
  unfold DeltaSpec.clamp. cbv zeta.
  destruct (Z.ltb_spec s 0).
  - rewrite Z.gtb_ltb. destruct (Z.ltb_spec 63 0); lia.
  - rewrite Z.gtb_ltb. destruct (Z.ltb_spec 63 s); lia.
Qed.

Lemma charge_clamp (c : Z) :
  (let c1 := if c >? 127 then 127 else c in if c1 <? -128 then -128 else c1)
  = DeltaSpec.clamp (-128) 127 c.
Proof.
  unfold DeltaSpec.clamp. cbv zeta. rewrite Z.gtb_ltb.
  destruct (Z.ltb_spec 127 c).
  - destruct (Z.ltb_spec 127 (-128)); lia.
  - destruct (Z.ltb_spec c (-128)); lia.
Qed.

Lemma clamp_bounds (lo hi x : Z) :
  lo <= hi -> lo <= DeltaSpec.clamp lo hi x <= hi.
Proof. unfold DeltaSpec.clamp. lia. Qed.

(** *** One iteration *)

Lemma pack_bit_total (st : locals) (b : bool) :
  packer_ok st ->
  exists st',
    pack_bit st b = Ok st' /\ packer_ok st' /\
    stream st' = stream st ++ [b] /\
    charge st' = charge st /\ strength st' = strength st /\
    previous_bit st' = previous_bit st /\ bit st' = bit st /\
    step st' = step st /\ change st' = change st.
Proof.
  intros (Hi & Hc & Hout). unfold pack_bit.
  set (cb := if b then Z.lor (current_byte st) (Z.shiftl 1 (bit_idx st))
             else current_byte st).
  assert (Hcb : (if b
                 then m <- py_lshift 1 (bit_idx st) ;;
                      Ok (Z.lor (current_byte st) m)
                 else Ok (current_byte st)) = Ok cb).
  { unfold cb, py_lshift. destruct b; [|reflexivity].
    destruct (Z.ltb_spec (bit_idx st) 0); [lia|reflexivity]. }
  rewrite Hcb. cbn [bind].
  pose proof (set_bit_bound (current_byte st) (bit_idx st) b
                (proj1 Hi) Hc) as Hbound.
  pose proof (set_bit_bits (current_byte st) (bit_idx st) b Hi Hc) as Hbits.
  fold cb in Hbound, Hbits.
  destruct (Z.eqb_spec (bit_idx st + 1) 8) as [H8|H8].
  - assert (H7 : bit_idx st = 7) by lia. rewrite H7 in *.
    change (2 ^ (7 + 1)) with 256 in Hbound.
    unfold bytearray_append.
    destruct (Z.leb_spec 0 cb); [|lia].
    destruct (Z.ltb_spec cb 256); [|lia].
    cbn [andb bind]. eexists. split; [reflexivity|].
    unfold packer_ok, stream; cbn [bit_idx current_byte out_bytes charge
      strength previous_bit bit step change].
    repeat split; try lia.
    + apply Forall_app. split; [exact Hout|]. constructor; [lia|constructor].
    + rewrite unpack_bits_app, H7, <- !app_assoc, <- Hbits. reflexivity.
  - eexists. split; [reflexivity|].
    unfold packer_ok, stream; cbn [bit_idx current_byte out_bytes charge
      strength previous_bit bit step change].
    repeat split; try lia; try exact Hout.
    rewrite Hbits, app_assoc. reflexivity.
Qed.

Lemma loop_body_total (st : locals) (sample : Z) :
  packer_ok st ->
  exists st',
    loop_body st sample = Ok st' /\ packer_ok st' /\ in_range st' /\
    stream st' = stream st ++ [sample >? charge st] /\
    view st' = DeltaSpec.step (fst (view st)) sample.
Proof.
  intros Hok. unfold loop_body.
  match goal with
  | |- context [pack_bit ?s ?b] =>
      destruct (pack_bit_total s b) as
        (st' & Hrun & Hok' & Hstr & Hc & Hs & Hp & Hb & _ & _);
      [exact Hok|]
  end.
  cbv zeta in Hrun, Hstr, Hc, Hs, Hp, Hb |- *.
  cbn [charge strength previous_bit bit] in Hc, Hs, Hp, Hb.
  pose proof (strength_clamp
    (if Bool.eqb (sample >? charge st) (previous_bit st)
     then strength st + 1 else strength st - 1)) as Es.
  cbv zeta in Es. rewrite Es in *. clear Es.
  match type of Hc with
  | _ = (if (if ?c >? 127 then _ else _) <? _ then _ else _) =>
      pose proof (charge_clamp c) as Ec
  end.
  cbv zeta in Ec. rewrite Ec in *. clear Ec.
  exists st'. split; [exact Hrun|]. split; [exact Hok'|].
  split; [|split].
  - unfold in_range. rewrite Hc, Hs.
    split; apply clamp_bounds; lia.
  - exact Hstr.
  - unfold view, DeltaSpec.step.
    cbn [fst DeltaSpec.charge DeltaSpec.strength DeltaSpec.previousBit].
    rewrite Hc, Hs, Hp, Hb. reflexivity.
Qed.

(** *** The whole loop *)

Lemma last_cons {A : Type} (tr : list A) :
  forall a d, last (a :: tr) d = last tr a.
Proof.
  induction tr as [|y tr IH]; intros a d; [reflexivity|].
  change (last (a :: y :: tr) d) with (last (y :: tr) d).
  rewrite (IH y d), (IH y a). reflexivity.
Qed.

Lemma run_total (samples : list Z) :
  forall st, packer_ok st ->
  exists tr,
    run_trace loop_body st samples = Ok tr /\
    for_loop loop_body st samples = Ok (last tr st) /\
    length tr = length samples /\
    Forall in_range tr /\
    packer_ok (last tr st) /\
    stream (last tr st) = stream st ++ bits_of tr /\
    map view tr = DeltaSpec.run (fst (view st)) samples.
Proof.
  induction samples as [|x rest IH]; intros st Hok.
  - exists []. cbn. rewrite app_nil_r. conjs; auto.
  - destruct (loop_body_total st x Hok) as (st1 & H1 & Hok1 & Hr1 & Hs1 & Hv1).
    destruct (IH st1 Hok1) as (tr & Ht & Hf & Hl & Hr & Hk & Hs & Hv).
    exists (st1 :: tr).
    rewrite last_cons. cbn [run_trace for_loop]. rewrite H1. cbn [bind].
    rewrite Ht, Hf. cbn [bind].
    conjs; auto.
    + cbn [length]. lia.
    + rewrite Hs, Hs1, <- app_assoc. cbn [bits_of map app].
      replace (match bit st1 with Some b => b | None => false end)
        with (x >? charge st); [reflexivity|].
      change (match bit st1 with Some b => b | None => false end)
        with (snd (view st1)).
      rewrite Hv1. reflexivity.
    + cbn [map DeltaSpec.run]. rewrite Hv1. f_equal.
      rewrite Hv, Hv1. reflexivity.
Qed.

Lemma initial_ok : packer_ok initial.
Proof. unfold packer_ok, initial; cbn. repeat split; try lia. constructor. Qed.

Lemma stream_length (st : locals) :
  packer_ok st ->
  Z.of_nat (length (stream st))
  = 8 * Z.of_nat (length (out_bytes st)) + bit_idx st.
Proof.
  intros (Hi & _ & _). unfold stream.
  rewrite length_app, unpack_bits_length, length_firstn.
  cbn [byte_bits map length]. lia.
Qed.

(** *** The final flush *)

Lemma finish_total (st : locals) :
  packer_ok st ->
  exists out,
    finish st = Ok out /\
    Forall (fun v => 0 <= v < 256) out /\
    Z.of_nat (length out) = (Z.of_nat (length (stream st)) + 7) / 8 /\
    unpack_bits out
    = stream st
      ++ repeat false (8 * length out - length (stream st)).
Proof.
  intros Hok. pose proof (stream_length st Hok) as Hlen.
  destruct Hok as (Hi & Hc & Hout). unfold finish.
  rewrite Z.gtb_ltb.
  destruct (Z.ltb_spec 0 (bit_idx st)) as [Hpos|Hzero].
  - assert (Hb : 0 <= current_byte st < 256).
    { assert (2 ^ bit_idx st <= 2 ^ 8) by (apply Z.pow_le_mono_r; lia).
      change (2 ^ 8) with 256 in *. lia. }
    unfold bytearray_append.
    destruct (Z.leb_spec 0 (current_byte st)); [|lia].
    destruct (Z.ltb_spec (current_byte st) 256); [|lia].
    cbn [andb]. eexists. split; [reflexivity|].
    split; [|split].
    + apply Forall_app. split; [exact Hout|]. constructor; [lia|constructor].
    + rewrite length_app. cbn [length]. rewrite Hlen.
      apply Z.div_unique with (r := bit_idx st + 7 - 8); lia.
    + rewrite unpack_bits_app. unfold stream. rewrite <- app_assoc. f_equal.
      cbn [unpack_bits flat_map]. rewrite app_nil_r.
      rewrite <- (firstn_skipn (Z.to_nat (bit_idx st))
                    (byte_bits (current_byte st))) at 1.
      f_equal.
      rewrite byte_bits_padding by lia. f_equal.
      rewrite !length_app, unpack_bits_length, length_firstn.
      cbn [byte_bits map length]. lia.
  - assert (H0 : bit_idx st = 0) by lia.
    exists (out_bytes st). split; [reflexivity|].
    split; [exact Hout|]. split.
    + rewrite Hlen, H0.
      apply Z.div_unique with (r := 7); lia.
    + unfold stream. rewrite H0. cbn [Z.to_nat firstn].
      rewrite !app_nil_r, unpack_bits_length, Nat.sub_diag. cbn [repeat].
      rewrite app_nil_r. reflexivity.
Qed.

(** The facts about a complete run that the theorems below share. *)
Lemma encode_total (samples : list Z) :
  exists tr out,
    run_trace loop_body initial samples = Ok tr /\
    encode_dfpwm samples = Ok out /\
    length tr = length samples /\
    Forall in_range tr /\
    map view tr = DeltaSpec.run DeltaSpec.initial samples /\
    Forall (fun v => 0 <= v < 256) out /\
    Z.of_nat (length out) = (Z.of_nat (length samples) + 7) / 8 /\
    unpack_bits out
    = bits_of tr ++ repeat false (8 * length out - length samples).
Proof.
  destruct (run_total samples initial initial_ok)
    as (tr & Ht & Hf & Hl & Hr & Hk & Hs & Hv).
  destruct (finish_total _ Hk) as (out & Ho & Hb & Hn & Hu).
  assert (Hlen : length (stream (last tr initial)) = length samples).
  { rewrite Hs. unfold stream at 1. cbn. unfold bits_of.
    rewrite length_map. exact Hl. }
  exists tr, out. unfold encode_dfpwm, encode_with. rewrite Hf. cbn [bind].
  conjs; auto.
  - rewrite <- Hlen. exact Hn.
  - rewrite Hu, Hlen, Hs. reflexivity.
Qed.

(** *** The range of the predictor, from any local variables *)

Lemma pack_bit_predictor (st st' : locals) (b : bool) :
  pack_bit st b = Ok st' ->
  charge st' = charge st /\ strength st' = strength st.
Proof.
  unfold pack_bit, bytearray_append, py_lshift. intros H.
  destruct b; destruct (bit_idx st <? 0); cbn [bind] in H;
    try discriminate;
    destruct (bit_idx st + 1 =? 8); cbn [bind] in H;
    repeat match type of H with
           | context [if ?c then _ else _] => destruct c; cbn [bind] in H
           end;
    try discriminate; inv H; split; reflexivity.
Qed.

Lemma loop_body_in_range (st : locals) (sample : Z) :
  match loop_body st sample with
  | Ok st' => in_range st'
  | Raise _ => True
  end.
Proof.
  destruct (loop_body st sample) as [st'|e] eqn:H; [|exact I].
  unfold loop_body in H. cbv zeta in H.
  apply pack_bit_predictor in H. cbn [charge strength] in H.
  destruct H as [Hc Hs].
  pose proof (strength_clamp
    (if Bool.eqb (sample >? charge st) (previous_bit st)
     then strength st + 1 else strength st - 1)) as Es.
  cbv zeta in Es. rewrite Es in *. clear Es.
  match type of Hc with
  | _ = (if (if ?c >? 127 then _ else _) <? _ then _ else _) =>
      pose proof (charge_clamp c) as Ec
  end.
  cbv zeta in Ec. rewrite Ec in *. clear Ec.
  unfold in_range. rewrite Hc, Hs. split; apply clamp_bounds; lia.
Qed.

(** *** Deleting the assignment to [step] *)

Lemma pack_bit_without_step (st : locals) (b : bool) :
  pack_bit (without_step st) b = result_map without_step (pack_bit st b).
Proof.
  unfold pack_bit.
  cbn [without_step bit_idx current_byte out_bytes charge strength
       previous_bit bit step change].
  destruct (if b
            then m <- py_lshift 1 (bit_idx st) ;;
                 Ok (Z.lor (current_byte st) m)
            else Ok (current_byte st)) as [cb|e]; [|reflexivity].
  cbn [bind]. destruct (bit_idx st + 1 =? 8); [|reflexivity].
  destruct (bytearray_append (out_bytes st) cb); reflexivity.
Qed.

Lemma loop_body_without_step (st : locals) (sample : Z) :
  loop_body_nostep (without_step st) sample
  = result_map without_step (loop_body st sample).
Proof.
  unfold loop_body_nostep, loop_body. cbv zeta.
  rewrite <- pack_bit_without_step. reflexivity.
Qed.

Lemma for_loop_without_step (samples : list Z) :
  forall st,
    for_loop loop_body_nostep (without_step st) samples
    = result_map without_step (for_loop loop_body st samples).
Proof.
  induction samples as [|x rest IH]; intros st; [reflexivity|].
  cbn [for_loop]. rewrite loop_body_without_step.
  destruct (loop_body st x) as [st'|e]; [|reflexivity].
  cbn [result_map bind]. apply IH.
Qed.

Lemma run_trace_without_step (samples : list Z) :
  forall st,
    run_trace loop_body_nostep (without_step st) samples
    = result_map (map without_step) (run_trace loop_body st samples).
Proof.
  induction samples as [|x rest IH]; intros st; [reflexivity|].
  cbn [run_trace]. rewrite loop_body_without_step.
  destruct (loop_body st x) as [st'|e]; [|reflexivity].
  cbn [result_map bind]. rewrite IH.
  destruct (run_trace loop_body st' rest); reflexivity.
Qed.

Lemma bits_of_without_step (tr : list locals) :
  bits_of (map without_step tr) = bits_of tr.
Proof. unfold bits_of. rewrite map_map. reflexivity. Qed.

Lemma bits_of_view (tr : list locals) : bits_of tr = map snd (map view tr).
Proof. unfold bits_of. rewrite map_map. reflexivity. Qed.

(** *** The scenario of the specification, run on the code *)

Example golden_bytes :
  encode_dfpwm [0; 50; 100; 100; 100; -100] = Ok [30].
Proof. reflexivity. Qed.

Example golden_trajectory :
  result_map (map (fun st => (charge st, strength st, bit st)))
    (run_trace loop_body initial [0; 50; 100; 100; 100; -100])
  = Ok [(-6, 1, Some false); (-4, 0, Some true); (2, 1, Some true);
        (12, 2, Some true); (26, 3, Some true); (16, 2, Some false)].
Proof. reflexivity. Qed.

Example out_of_range_samples :
  encode_dfpwm [100000; -100000; 7; 7; 7; 7; 7; 7; 99] = Ok [173; 1].
Proof. reflexivity. Qed.

(** *** The claims about the encoder *)

(** C1: from the initial state charge = 0, strength = 0, previousBit = false,
    the loop of [encode_dfpwm] performs on every sample, in input order,
    exactly the six-item step of the specification: the predictor state and
    the bit recorded at the end of each iteration are those of
    [DeltaSpec.run], there is one iteration per sample, and the bits read back
    from the returned bytes are the emitted bits in input order. *)
Theorem encoder_performs_spec_step (samples : list Z) :
  exists tr out,
    run_trace loop_body initial samples = Ok tr /\
    fst (view initial) = DeltaSpec.initial /\
    map view tr = DeltaSpec.run DeltaSpec.initial samples /\
    length tr = length samples /\
    encode_dfpwm samples = Ok out /\
    firstn (length samples) (unpack_bits out)
    = map snd (DeltaSpec.run DeltaSpec.initial samples).
Proof.
  destruct (encode_total samples)
    as (tr & out & Ht & Ho & Hl & _ & Hv & _ & _ & Hu).
  exists tr, out. conjs; auto.
  rewrite Hu, <- Hv, <- bits_of_view.
  assert (Hlen : length (bits_of tr) = length samples)
    by (unfold bits_of; rewrite length_map; exact Hl).
  rewrite <- Hlen, firstn_app, Nat.sub_diag, firstn_all. cbn [firstn].
  apply app_nil_r.
Qed.

(** C2: every update of the loop body leaves charge in [-128, 127] and
    strength in [0, 63], whatever the local variables were before it; and in
    every run of the encoder the local variables at the end of every
    iteration are in these ranges. *)
Theorem clamp_invariant (samples : list Z) :
  (forall st sample,
      match loop_body st sample with
      | Ok st' => in_range st'
      | Raise _ => True
      end) /\
  exists tr,
    run_trace loop_body initial samples = Ok tr /\
    length tr = length samples /\
    Forall in_range tr.
Proof.
  split; [exact loop_body_in_range|].
  destruct (encode_total samples)
    as (tr & out & Ht & _ & Hl & Hr & _).
  exists tr. conjs; auto.
Qed.

(** C3: for the N bits emitted on N samples, [encode_dfpwm] returns
    ceil(N / 8) bytes, each in 0..255; reading the bytes back least
    significant bit first gives the N emitted bits, and every bit after them
    (the padding of the last byte) is 0. *)
Theorem bit_packing_round_trip (samples : list Z) :
  exists tr out,
    run_trace loop_body initial samples = Ok tr /\
    encode_dfpwm samples = Ok out /\
    length (bits_of tr) = length samples /\
    Z.of_nat (length out) = (Z.of_nat (length samples) + 7) / 8 /\
    Forall (fun v => 0 <= v < 256) out /\
    firstn (length samples) (unpack_bits out) = bits_of tr /\
    skipn (length samples) (unpack_bits out)
    = repeat false (8 * length out - length samples).
Proof.
  destruct (encode_total samples)
    as (tr & out & Ht & Ho & Hl & _ & _ & Hb & Hn & Hu).
  assert (Hlen : length (bits_of tr) = length samples)
    by (unfold bits_of; rewrite length_map; exact Hl).
  exists tr, out. conjs; auto.
  - rewrite Hu, <- Hlen, firstn_app, Nat.sub_diag, firstn_all. cbn [firstn].
    apply app_nil_r.
  - rewrite Hu, <- Hlen, skipn_app, Nat.sub_diag, skipn_all. cbn [skipn app].
    rewrite Hlen. reflexivity.
Qed.

(** C5: the value assigned to [step] is never read: the encoder without that
    assignment runs through the same local variables (apart from [step]
    itself), emits the same bits and returns the same bytes. *)
Theorem step_is_dead (samples : list Z) :
  encode_dfpwm_nostep samples = encode_dfpwm samples /\
  exists tr,
    run_trace loop_body initial samples = Ok tr /\
    run_trace loop_body_nostep initial samples = Ok (map without_step tr) /\
    bits_of (map without_step tr) = bits_of tr.
Proof.
  split.
  - unfold encode_dfpwm_nostep, encode_dfpwm, encode_with.
    change initial with (without_step initial) at 1.
    rewrite for_loop_without_step.
    destruct (for_loop loop_body initial samples); reflexivity.
  - destruct (encode_total samples) as (tr & out & Ht & _).
    exists tr. conjs; auto.
    + change initial with (without_step initial).
      rewrite run_trace_without_step, Ht. reflexivity.
    + apply bits_of_without_step.
Qed.

(** C8: [encode_dfpwm] returns a byte sequence on every finite list of
    integers, whatever their size: no operation of the loop or of the final
    flush raises, and charge stays in [-128, 127] and strength in [0, 63]
    at the end of every iteration. *)
Theorem encode_dfpwm_total (samples : list Z) :
  exists out tr,
    encode_dfpwm samples = Ok out /\
    Forall (fun v => 0 <= v < 256) out /\
    run_trace loop_body initial samples = Ok tr /\
    for_loop loop_body initial samples = Ok (last tr initial) /\
    length tr = length samples /\
    Forall in_range tr.
Proof.
  destruct (run_total samples initial initial_ok)
    as (tr & Ht & Hf & Hl & Hr & Hk & _).
  destruct (finish_total _ Hk) as (out & Ho & Hb & _).
  exists out, tr. unfold encode_dfpwm, encode_with. rewrite Hf. cbn [bind].
  conjs; auto.
Qed.

End EncoderFacts.

(** ** Binary64 arithmetic on whole numbers *)

Module FloatFacts.

Lemma digits2_log2 (p : positive) :
  Zpos (digits2_pos p) = Z.log2 (Zpos p) + 1.
Proof.
  induction p as [p IH|p IH|]; cbn [digits2_pos]; [| |reflexivity].
  - rewrite Pos2Z.inj_succ, IH, Pos2Z.inj_xI, Z.log2_succ_double; lia.
  - rewrite Pos2Z.inj_succ, IH, Pos2Z.inj_xO, Z.log2_double; lia.
Qed.

Lemma iter_xO_pow (m d : positive) :
  Zpos (Pos.iter xO m d) = Zpos m * 2 ^ Zpos d.
Proof.
  apply (Pos.iter_ind _ xO m (fun d r => Zpos r = Zpos m * 2 ^ Zpos d)).
  - rewrite Pos2Z.inj_xO. lia.
  - intros p r IH. rewrite Pos2Z.inj_xO, IH, Pos2Z.inj_succ, Z.pow_succ_r; lia.
Qed.

Lemma shl_align_value (m : positive) (e e' : Z) :
  e' <= e -> Zpos (fst (shl_align m e e')) = Zpos m * 2 ^ (e - e').
Proof.
  intros H. unfold shl_align.
  destruct (e' - e) as [|d|d] eqn:E; try lia; cbn [fst].
  - replace (e - e') with 0 by lia. lia.
  - rewrite iter_xO_pow. f_equal. f_equal. lia.
Qed.

Lemma shl_align_none (m : positive) (e e' : Z) :
  e <= e' -> shl_align m e e' = (m, e).
Proof.
  intros H. unfold shl_align. destruct (e' - e) eqn:E; try lia; reflexivity.
Qed.

Lemma shr_1_double (q : Z) : 0 <= q -> shr_1 (exact (2 * q)) = exact q.
Proof.
  intros H. destruct q as [|p|p]; try lia; reflexivity.
Qed.

Lemma pow2_xO (p : positive) : 2 ^ Zpos p~0 = 2 ^ Zpos p * 2 ^ Zpos p.
Proof.
  rewrite (Pos2Z.inj_xO p). replace (2 * Zpos p) with (Zpos p + Zpos p) by lia.
  apply Z.pow_add_r; lia.
Qed.

Lemma pow2_xI (p : positive) : 2 ^ Zpos p~1 = 2 * (2 ^ Zpos p * 2 ^ Zpos p).
Proof.
  rewrite (Pos2Z.inj_xI p).
  replace (2 * Zpos p + 1) with (Z.succ (Zpos p + Zpos p)) by lia.
  rewrite Z.pow_succ_r, Z.pow_add_r by lia. reflexivity.
Qed.

Lemma iter_shr_exact (p : positive) :
  forall q, 0 <= q -> iter_pos shr_1 p (exact (q * 2 ^ Zpos p)) = exact q.
Proof.
  induction p as [p IH|p IH|]; intros q Hq; cbn [iter_pos].
  - assert (0 < 2 ^ Zpos p) by (apply Z.pow_pos_nonneg; lia).
    replace (q * 2 ^ Zpos p~1) with (2 * ((q * 2 ^ Zpos p) * 2 ^ Zpos p))
      by (rewrite pow2_xI; lia).
    rewrite shr_1_double by nia.
    rewrite IH by nia. apply IH. lia.
  - assert (0 < 2 ^ Zpos p) by (apply Z.pow_pos_nonneg; lia).
    replace (q * 2 ^ Zpos p~0) with ((q * 2 ^ Zpos p) * 2 ^ Zpos p)
      by (rewrite pow2_xO; lia).
    rewrite IH by nia. apply IH. lia.
  - replace (q * 2 ^ 1) with (2 * q) by lia. apply shr_1_double. lia.
Qed.

(** The mantissa of a whole number, with 53 digits. *)
Lemma mantissa_log2 (c : Z) :
  0 < c -> Z.log2 c <= 52 -> Z.log2 (c * 2 ^ (52 - Z.log2 c)) = 52.
Proof.
  intros Hc Hl. rewrite Z.log2_mul_pow2 by lia. lia.
Qed.

Lemma Zdigits2_log2 (z : Z) : 0 < z -> Zdigits2 z = Z.log2 z + 1.
Proof.
  destruct z as [|p|p]; try lia. intros _. apply digits2_log2.
Qed.

Lemma shr_fexp_whole (c t : Z) :
  0 < c -> Z.log2 c <= 52 -> 52 - Z.log2 c <= t ->
  shr_fexp 53 1024 (c * 2 ^ t) (- t) loc_Exact
  = (exact (c * 2 ^ (52 - Z.log2 c)), Z.log2 c - 52).
Proof.
  intros Hc Hl Ht.
  assert (Hlog : 0 <= Z.log2 c) by apply Z.log2_nonneg.
  assert (Hp : 0 < 2 ^ t) by (apply Z.pow_pos_nonneg; lia).
  unfold shr_fexp, shr, fexp, emin.
  rewrite Zdigits2_log2 by nia.
  rewrite Z.log2_mul_pow2 by lia.
  cbn [shr_record_of_loc]. fold (exact (c * 2 ^ t)).
  replace (Z.max (t + Z.log2 c + 1 + - t - 53) (3 - 1024 - 53) - - t)
    with (t - (52 - Z.log2 c)) by lia.
  destruct (t - (52 - Z.log2 c)) as [|p|p] eqn:E; try lia.
  - replace t with (52 - Z.log2 c) by lia. f_equal. lia.
  - replace (c * 2 ^ t) with ((c * 2 ^ (52 - Z.log2 c)) * 2 ^ Zpos p).
    2:{ rewrite <- Z.mul_assoc, <- Z.pow_add_r by lia. do 2 f_equal. lia. }
    rewrite iter_shr_exact.
    + f_equal. lia.
    + assert (0 < 2 ^ (52 - Z.log2 c)) by (apply Z.pow_pos_nonneg; lia). nia.
Qed.

Lemma shr_fexp_normal (q e : Z) :
  0 < q -> Z.log2 q = 52 -> -1074 <= e ->
  shr_fexp 53 1024 q e loc_Exact = (exact q, e).
Proof.
  intros Hq Hl He. unfold shr_fexp, shr, fexp, emin.
  rewrite Zdigits2_log2, Hl by lia. cbn [shr_record_of_loc].
  replace (Z.max (52 + 1 + e - 53) (3 - 1024 - 53) - e) with 0 by lia.
  reflexivity.
Qed.

Lemma round_aux_whole (c t : Z) :
  0 < c < 2 ^ 53 -> 52 - Z.log2 c <= t ->
  binary_round_aux 53 1024 false (c * 2 ^ t) (- t) loc_Exact = whole c.
Proof.
  intros [Hc Hlt] Ht.
  assert (Hl : Z.log2 c <= 52) by (apply Z.log2_lt_pow2 in Hlt; lia).
  assert (Hlog : 0 <= Z.log2 c) by apply Z.log2_nonneg.
  assert (Hq : 0 < c * 2 ^ (52 - Z.log2 c)).
  { assert (0 < 2 ^ (52 - Z.log2 c)) by (apply Z.pow_pos_nonneg; lia). nia. }
  unfold binary_round_aux. rewrite shr_fexp_whole by lia.
  cbn [shr_m exact loc_of_shr_record round_nearest_even].
  rewrite shr_fexp_normal by (try apply mantissa_log2; lia).
  cbn [shr_m exact].
  destruct (c * 2 ^ (52 - Z.log2 c)) as [|m|m] eqn:Em; try lia.
  destruct (Z.leb_spec (Z.log2 c - 52) (1024 - 53)); [|lia].
  unfold whole. destruct c as [|c|c]; try lia. rewrite Em. reflexivity.
Qed.

Lemma normalize_whole (c t : Z) :
  0 < c < 2 ^ 53 -> 52 - Z.log2 c <= t ->
  binary_normalize 53 1024 (c * 2 ^ t) (- t) false = whole c.
Proof.
  intros [Hc Hlt] Ht.
  assert (Hl : Z.log2 c <= 52) by (apply Z.log2_lt_pow2 in Hlt; lia).
  assert (Hlog : 0 <= Z.log2 c) by apply Z.log2_nonneg.
  assert (Hp : 0 < 2 ^ t) by (apply Z.pow_pos_nonneg; lia).
  destruct (c * 2 ^ t) as [|S|S] eqn:ES; try nia.
  cbn [binary_normalize]. unfold binary_round.
  assert (Hd : Zpos (digits2_pos S) = t + Z.log2 c + 1).
  { rewrite digits2_log2, <- ES, Z.log2_mul_pow2 by lia. reflexivity. }
  rewrite Hd. unfold fexp at 1, emin.
  rewrite shl_align_none by lia.
  rewrite <- ES. apply round_aux_whole; lia.
Qed.

Lemma float_add_whole (a b : Z) :
  0 < a -> 0 < b -> a + b < 2 ^ 53 ->
  float_add (whole a) (whole b) = whole (a + b).
Proof.
  intros Ha Hb Hab.
  assert (Hla : Z.log2 a <= Z.log2 (a + b)) by (apply Z.log2_le_mono; lia).
  assert (Hlb : Z.log2 b <= Z.log2 (a + b)) by (apply Z.log2_le_mono; lia).
  assert (Hlc : Z.log2 (a + b) <= 52)
    by (apply Z.log2_lt_pow2 in Hab; lia).
  assert (H0a : 0 <= Z.log2 a) by apply Z.log2_nonneg.
  assert (H0b : 0 <= Z.log2 b) by apply Z.log2_nonneg.
  destruct a as [|pa|pa]; try lia. destruct b as [|pb|pb]; try lia.
  unfold float_add. cbn [whole SFadd cond_Zopp].
  set (ea := Z.log2 (Zpos pa) - 52). set (eb := Z.log2 (Zpos pb) - 52).
  rewrite !shl_align_value by lia.
  assert (Hma : 0 < Zpos pa * 2 ^ (52 - Z.log2 (Zpos pa))).
  { assert (0 < 2 ^ (52 - Z.log2 (Zpos pa))) by (apply Z.pow_pos_nonneg; lia).
    nia. }
  assert (Hmb : 0 < Zpos pb * 2 ^ (52 - Z.log2 (Zpos pb))).
  { assert (0 < 2 ^ (52 - Z.log2 (Zpos pb))) by (apply Z.pow_pos_nonneg; lia).
    nia. }
  rewrite !Z2Pos.id by assumption.
  rewrite <- !Z.mul_assoc, <- !Z.pow_add_r by lia.
  replace (52 - Z.log2 (Zpos pa) + (ea - Z.min ea eb)) with (- Z.min ea eb)
    by lia.
  replace (52 - Z.log2 (Zpos pb) + (eb - Z.min ea eb)) with (- Z.min ea eb)
    by lia.
  rewrite <- Z.mul_add_distr_r.
  replace (Z.min ea eb) with (- - Z.min ea eb) at 2 by lia.
  apply normalize_whole; lia.
Qed.

(** Adding a whole ratio to a whole cursor is exact below 2^53. *)
Lemma float_add_whole_cursor (a k : Z) :
  0 <= a -> 0 < k -> a + k < 2 ^ 53 ->
  float_add (whole a) (whole k) = whole (a + k).
Proof.
  intros Ha Hk Hlt. destruct (Z.eq_dec a 0) as [->|Hnz].
  - destruct k; try lia. reflexivity.
  - apply float_add_whole; lia.
Qed.

Lemma whole_mantissa (a : Z) :
  0 < a < 2 ^ 53 ->
  0 <= 52 - Z.log2 a /\
  whole a
  = S754_finite false (Z.to_pos (a * 2 ^ (52 - Z.log2 a))) (Z.log2 a - 52) /\
  Zpos (Z.to_pos (a * 2 ^ (52 - Z.log2 a))) = a * 2 ^ (52 - Z.log2 a) /\
  0 < 2 ^ (52 - Z.log2 a).
Proof.
  intros [Ha Hlt].
  assert (Hl : Z.log2 a <= 52) by (apply Z.log2_lt_pow2 in Hlt; lia).
  assert (Hp : 0 < 2 ^ (52 - Z.log2 a)) by (apply Z.pow_pos_nonneg; lia).
  split; [lia|]. split; [destruct a; try lia; reflexivity|].
  split; [apply Z2Pos.id; nia|exact Hp].
Qed.

Lemma float_lt_int_whole (a n : Z) :
  0 <= a < 2 ^ 53 -> float_lt_int (whole a) n = (a <? n).
Proof.
  intros [Ha Hlt]. destruct (Z.eq_dec a 0) as [->|Hnz]; [reflexivity|].
  destruct (whole_mantissa a ltac:(lia)) as (Hl & -> & Hm & Hp).
  cbn [float_lt_int]. rewrite Hm.
  destruct (Z.leb_spec 0 (Z.log2 a - 52)).
  - replace (Z.log2 a - 52) with 0 by lia.
    replace (52 - Z.log2 a) with 0 by lia. f_equal. lia.
  - replace (- (Z.log2 a - 52)) with (52 - Z.log2 a) by lia.
    destruct (Z.ltb_spec a n); destruct (Z.ltb_spec (a * 2 ^ (52 - Z.log2 a))
                                           (n * 2 ^ (52 - Z.log2 a)));
      try reflexivity; nia.
Qed.

Lemma py_int_whole (a : Z) : 0 <= a < 2 ^ 53 -> py_int (whole a) = Ok a.
Proof.
  intros [Ha Hlt]. destruct (Z.eq_dec a 0) as [->|Hnz]; [reflexivity|].
  destruct (whole_mantissa a ltac:(lia)) as (Hl & -> & Hm & Hp).
  cbn [py_int]. rewrite Hm. f_equal.
  destruct (Z.leb_spec 0 (Z.log2 a - 52)).
  - replace (Z.log2 a - 52) with 0 by lia.
    replace (52 - Z.log2 a) with 0 by lia. lia.
  - replace (- (Z.log2 a - 52)) with (52 - Z.log2 a) by lia.
    apply Z.div_mul. lia.
Qed.

(** The quotient of a multiple k * t by t is the whole number k, exactly. *)
Lemma py_truediv_whole (k t : Z) :
  0 < t -> 0 < k < 2 ^ 53 -> py_truediv (k * t) t = Ok (whole k).
Proof.
  intros Ht [Hk Hlt]. unfold py_truediv.
  destruct (Z.eqb_spec t 0); [lia|].
  assert (Hkt : 0 < k * t) by nia.
  assert (Hlk : Z.log2 k <= 52) by (apply Z.log2_lt_pow2 in Hlt; lia).
  assert (H0k : 0 <= Z.log2 k) by apply Z.log2_nonneg.
  assert (H0t : 0 <= Z.log2 t) by apply Z.log2_nonneg.
  assert (Hle : Z.log2 t <= Z.log2 (k * t)) by (apply Z.log2_le_mono; nia).
  assert (Hub : Z.log2 (k * t) <= Z.log2 k + Z.log2 t + 1)
    by (apply Z.log2_mul_above; lia).
  set (s := 52 + Z.log2 t - Z.log2 (k * t)).
  assert (Hs : 52 - Z.log2 k <= s + 1 /\ 0 <= s + 1 <= 53)
    by (unfold s; lia).
  assert (Hdiv : Z.div_eucl (k * 2 ^ (s + 1) * t) t = (k * 2 ^ (s + 1), 0)).
  { replace (Z.div_eucl (k * 2 ^ (s + 1) * t) t)
      with ((k * 2 ^ (s + 1) * t) / t, (k * 2 ^ (s + 1) * t) mod t)
      by (unfold Z.div, Z.modulo;
          destruct (Z.div_eucl (k * 2 ^ (s + 1) * t) t); reflexivity).
    rewrite Z.div_mul, Z.mod_mul by lia. reflexivity. }
  assert (Hcore : float_div (int_exact (k * t)) (int_exact t)
                  = binary_round_aux 53 1024 false
                      (k * 2 ^ (s + 1)) (- (s + 1)) loc_Exact).
  { destruct (k * t) as [|pa|pa] eqn:Ea; try lia.
    destruct t as [|pt|pt] eqn:Et; try lia.
    unfold float_div. cbn [int_exact SFdiv xorb]. unfold SFdiv_core_binary.
    rewrite !Zdigits2_log2 by lia. unfold fexp, emin.
    replace (Z.min
               (Z.max (Z.log2 (Zpos pa) + 1 + 0 - (Z.log2 (Zpos pt) + 1 + 0) - 53)
                  (3 - 1024 - 53)) (0 - 0))
      with (- (s + 1)) by (unfold s; lia).
    replace (0 - 0 - - (s + 1)) with (s + 1) by lia.
    assert (Hm : match s + 1 with
                 | 0 => Zpos pa
                 | Zpos _ => Z.shiftl (Zpos pa) (s + 1)
                 | Zneg _ => 0
                 end = k * 2 ^ (s + 1) * Zpos pt).
    { destruct (s + 1) as [|ps|ps] eqn:Es; try lia.
      rewrite Z.shiftl_mul_pow2 by lia. lia. }
    rewrite Hm, Hdiv.
    replace (new_location (Zpos pt) 0) with loc_Exact
      by (unfold new_location, new_location_even, new_location_odd;
          destruct (Z.even (Zpos pt)); reflexivity).
    reflexivity. }
  rewrite Hcore, round_aux_whole by lia.
  destruct k; try lia. reflexivity.
Qed.

End FloatFacts.

(** ** Binary64 rounding of positive values in the normal range *)

(** A float [S754_finite false m e] with -1074 <= e is followed through its
    value scaled by 2^1074, the whole number m * 2^(e + 1074). *)

Module FloatBounds.

Import FloatFacts.

















End FloatBounds.

(** ** Sample extraction and resampling *)

Module WavFacts.

Import Wav.

Lemma byte_val_range (b : byte) : 0 <= byte_val b < 256.
Proof.
  unfold byte_val. pose proof (Byte.to_N_bounded b). lia.
Qed.

Lemma signed16_range (lo hi : Z) :
  0 <= lo < 256 -> 0 <= hi < 256 -> -32768 <= signed16 lo hi <= 32767.
Proof.
  intros Hlo Hhi. unfold signed16.
  destruct (Z.geb_spec (lo + 256 * hi) 32768); lia.
Qed.

(** Floor division by 256 keeps the high byte, read as a signed byte. *)
Lemma signed16_high_byte (lo hi : Z) :
  0 <= lo < 256 -> 0 <= hi < 256 ->
  signed16 lo hi / 256 = if hi >=? 128 then hi - 256 else hi.
Proof.
  intros Hlo Hhi. unfold signed16.
  destruct (Z.geb_spec (lo + 256 * hi) 32768);
    destruct (Z.geb_spec hi 128); try lia;
    symmetry; apply Z.div_unique with (r := lo); lia.
Qed.

(** The quotient rounded toward zero is one more than the floor exactly on the
    negative values that 256 does not divide. *)
Lemma floor_vs_truncate (v : Z) :
  v / 256
  = Z.quot v 256 - (if (v <? 0) && negb (v mod 256 =? 0) then 1 else 0).
Proof.
  pose proof (Z.div_mod v 256 ltac:(lia)) as Hdm.
  pose proof (Z.mod_pos_bound v 256 ltac:(lia)) as Hmb.
  pose proof (Z.quot_rem' v 256) as Hqr.
  destruct (Z.ltb_spec v 0) as [Hneg|Hpos].
  - pose proof (Z.rem_bound_pos_neg v 256 ltac:(lia) ltac:(lia)) as Hrb.
    destruct (Z.eqb_spec (v mod 256) 0); cbn [andb negb]; lia.
  - pose proof (Z.rem_bound_pos v 256 ltac:(lia) ltac:(lia)) as Hrb.
    cbn [andb]. lia.
Qed.

Lemma unpack_from_h_at (pre post : list byte) (lo hi : byte) :
  unpack_from_h (pre ++ lo :: hi :: post) (Z.of_nat (length pre))
  = Ok (signed16 (byte_val lo) (byte_val hi)).
Proof.
  unfold unpack_from_h. rewrite length_app. cbn [length].
  assert (E0 : (Z.of_nat (length pre) <? 0) = false)
    by (apply Z.ltb_ge; lia).
  cbv zeta. rewrite E0. cbv iota. rewrite E0.
  match goal with
  | |- context [?n - ?m <? 2] => destruct (Z.ltb_spec (n - m) 2); [lia|]
  end.
  cbn [orb]. rewrite Nat2Z.id.
  replace (Z.to_nat (Z.of_nat (length pre) + 1)) with (S (length pre)) by lia.
  rewrite nth_middle.
  change (pre ++ lo :: hi :: post) with (pre ++ [lo] ++ hi :: post).
  rewrite app_assoc.
  replace (S (length pre)) with (length (pre ++ [lo]))
    by (rewrite length_app; cbn [length]; lia).
  rewrite nth_middle. reflexivity.
Qed.

Lemma collect_const {A B : Type} (f : A -> result B) (c : B) (l : list A) :
  (forall a, In a l -> f a = Ok c) ->
  collect f l = Ok (repeat c (length l)).
Proof.
  induction l as [|a l IH]; intros H; [reflexivity|].
  cbn [collect]. rewrite (H a) by (left; reflexivity). cbn [bind].
  rewrite IH by (intros b Hb; apply H; right; exact Hb). reflexivity.
Qed.

(** Silence: [n] mono 16-bit frames of zero bytes give [n] zero samples. *)
Lemma mono_samples_silence (n : nat) :
  mono_samples 1 2 (repeat x00 (2 * n)) = Ok (repeat 0 n).
Proof.
  unfold mono_samples, py_range. rewrite repeat_length.
  change (2 * 1 =? 0) with false. change (2 * 1 >? 0) with true. cbv iota.
  replace (Z.to_nat ((Z.of_nat (2 * n) - 0 + 2 * 1 - 1) / (2 * 1))) with n.
  2:{ assert (E : (Z.of_nat (2 * n) - 0 + 2 * 1 - 1) / (2 * 1) = Z.of_nat n)
        by (symmetry; apply Z.div_unique with (r := 1); lia).
      rewrite E. lia. }
  cbn [bind]. rewrite collect_const with (c := 0).
  - rewrite length_map, length_seq. reflexivity.
  - intros a Ha. apply in_map_iff in Ha. destruct Ha as (k & <- & Hk).
    apply in_seq in Hk.
    unfold frame_sample, get_sample, unpack_from_h.
    change (2 =? 1) with false. change (2 =? 2) with true. cbv iota.
    rewrite repeat_length.
    assert (E0 : (0 + Z.of_nat k * (2 * 1) <? 0) = false)
      by (apply Z.ltb_ge; lia).
    cbv zeta. rewrite E0. cbv iota. rewrite E0.
    match goal with
    | |- context [?a - ?b <? 2] => destruct (Z.ltb_spec (a - b) 2); [lia|]
    end.
    cbn [orb bind]. rewrite !nth_repeat. reflexivity.
Qed.

(** The loop reads the list at the positions of [cursor_loop], in order. *)
Lemma resample_loop_cursor (fuel : nat) (samples : list Z)
  (ratio : spec_float) :
  forall idx acc,
    resample_loop fuel samples ratio idx acc
    = option_map
        (result_map
           (fun js => acc ++ map (fun j => nth (Z.to_nat j) samples 0) js))
        (cursor_loop fuel (Z.of_nat (length samples)) ratio idx).
Proof.
  induction fuel as [|fuel IH]; intros idx acc; [reflexivity|].
  cbn [resample_loop cursor_loop].
  destruct (float_lt_int idx (Z.of_nat (length samples)));
    [|cbn; rewrite app_nil_r; reflexivity].
  destruct (py_int idx) as [i|e]; [|reflexivity].
  cbn [bind]. unfold py_getitem.
  set (j := if i <? 0 then i + Z.of_nat (length samples) else i).
  destruct ((j <? 0) || (Z.of_nat (length samples) <=? j)) eqn:Hj;
    [reflexivity|].
  apply orb_false_iff in Hj. destruct Hj as [Hj0 Hjn].
  apply Z.ltb_ge in Hj0. apply Z.leb_gt in Hjn.
  rewrite (nth_error_nth' samples 0) by lia.
  rewrite IH.
  destruct (cursor_loop fuel (Z.of_nat (length samples)) ratio
              (float_add idx ratio)) as [[js|e]|]; cbn;
    [rewrite <- app_assoc|..]; reflexivity.
Qed.

Lemma cursor_loop_more_fuel (fuel : nat) (len : Z) (ratio : spec_float) :
  forall idx r k,
    cursor_loop fuel len ratio idx = Some r ->
    cursor_loop (fuel + k) len ratio idx = Some r.
Proof.
  induction fuel as [|fuel IH]; intros idx r k H; [discriminate|].
  cbn [cursor_loop Nat.add] in *.
  destruct (float_lt_int idx len); [|exact H].
  destruct (py_int idx) as [i|e]; [|exact H].
  cbv zeta in *.
  destruct (((if i <? 0 then i + len else i) <? 0)
            || (len <=? (if i <? 0 then i + len else i))); [exact H|].
  destruct (cursor_loop fuel len ratio (float_add idx ratio)) as [r'|] eqn:E;
    [|discriminate].
  rewrite (IH _ _ k E). exact H.
Qed.




(** With a whole ratio k the cursor takes the values a, a + k, a + 2k, ...
    exactly, and leaves an input of n samples after ceil((n - a) / k)
    positions. *)
Lemma cursor_loop_whole (n k : Z) :
  0 < k -> n + k <= 2 ^ 53 ->
  forall fuel a,
    0 <= a < n + k -> n <= a + k * Z.of_nat fuel ->
    cursor_loop (S fuel) n (whole k) (whole a)
    = Some (Ok (map (fun i => a + k * Z.of_nat i)
                  (seq 0 (Z.to_nat ((n - a + k - 1) / k))))).
Proof.
  intros Hk Hn. induction fuel as [|fuel IH]; intros a Ha Hfuel.
  - cbn [cursor_loop]. rewrite FloatFacts.float_lt_int_whole by lia.
    destruct (Z.ltb_spec a n); [lia|].
    rewrite Z.div_small by lia. reflexivity.
  - cbn [cursor_loop] in *.
    rewrite FloatFacts.float_lt_int_whole by lia.
    destruct (Z.ltb_spec a n) as [Hlt|Hge].
    + rewrite FloatFacts.py_int_whole by lia.
      destruct (Z.ltb_spec a 0); [lia|]. cbv zeta.
      destruct (Z.ltb_spec a 0); [lia|].
      destruct (Z.leb_spec n a); [lia|]. cbn [orb].
      rewrite FloatFacts.float_add_whole_cursor by lia.
      rewrite (IH (a + k)) by lia. cbn [option_map result_map].
      replace (n - a + k - 1) with ((n - (a + k) + k - 1) + 1 * k) by lia.
      rewrite Z.div_add by lia.
      assert (Hq : 0 <= (n - (a + k) + k - 1) / k)
        by (apply Z.div_pos; lia).
      replace (Z.to_nat ((n - (a + k) + k - 1) / k + 1))
        with (S (Z.to_nat ((n - (a + k) + k - 1) / k))) by lia.
      cbn [seq map]. rewrite <- seq_shift, map_map.
      do 3 f_equal; [lia|]. apply map_ext. intros i. lia.
    + rewrite Z.div_small by lia. reflexivity.
Qed.

(** Downsampling by a whole factor: when the source rate is k times a positive
    target rate, the resampler returns samples[0], samples[k], samples[2k],
    ..., ceil(len / k) of them. *)
Lemma resample_whole_ratio (k t : Z) (samples : list Z) :
  0 < t -> 1 < k -> Z.of_nat (length samples) + k < 2 ^ 53 ->
  resample (S (length samples)) (k * t) t samples
  = Some (Ok (map (fun i => nth (Z.to_nat (k * Z.of_nat i)) samples 0)
                (seq 0 (Z.to_nat ((Z.of_nat (length samples) + k - 1) / k))))).
Proof.
  intros Ht Hk Hlen. unfold resample.
  destruct (Z.eqb_spec t (k * t)); [nia|]. cbn [negb].
  rewrite FloatFacts.py_truediv_whole by lia.
  rewrite resample_loop_cursor.
  change (S754_zero false) with (whole 0).
  rewrite cursor_loop_whole by nia.
  cbn [option_map result_map app]. rewrite map_map.
  replace (Z.of_nat (length samples) - 0 + k - 1)
    with (Z.of_nat (length samples) + k - 1) by lia.
  reflexivity.
Qed.

Lemma zeros_at (n : nat) (js : list Z) :
  map (fun j => nth (Z.to_nat j) (repeat 0 n) 0) js = repeat 0 (length js).
Proof.
  induction js as [|j js IH]; [reflexivity|].
  cbn [map length repeat]. rewrite nth_repeat, IH. reflexivity.
Qed.

Lemma ratio_48000_8000 : py_truediv 48000 8000 = Ok six.
Proof. vm_compute. reflexivity. Qed.

(** On 48000 samples the cursor 0.0, 6.0, 12.0, ... passes 8001 loop tests
    and selects 8000 positions. *)
Lemma cursor_48000_8000 :
  cursor_loop (Z.to_nat 8001) 48000 six (S754_zero false)
  = Some (Ok (map (fun k => 6 * Z.of_nat k) (seq 0 (Z.to_nat 8000)))).
Proof. vm_compute. reflexivity. Qed.

Lemma cursor_48000_8000_short :
  cursor_loop (Z.to_nat 8000) 48000 six (S754_zero false) = None.
Proof. vm_compute. reflexivity. Qed.

(** *** The claims about sample extraction and resampling *)

(** C4, as the code has it: a little-endian signed 16-bit value v at any
    position of the frames is mapped by [get_sample], and by the loop of
    [process_file], to the floor of v / 256 (Python's [//], which rounds
    toward negative infinity); this is the high byte of v read as a signed
    byte, it lies in [-128, 127], and it is one less than the quotient
    rounded toward zero exactly when v is negative and not divisible by
    256. *)
Theorem get_sample_16bit_floor (pre post : list byte) (lo hi : byte) :
  let v := signed16 (byte_val lo) (byte_val hi) in
  get_sample 2 (pre ++ lo :: hi :: post) (Z.of_nat (length pre))
  = Ok (v / 256) /\
  process_file_samples [lo; hi] = Ok [v / 256] /\
  -32768 <= v <= 32767 /\
  -128 <= v / 256 <= 127 /\
  v / 256 = (if byte_val hi >=? 128 then byte_val hi - 256 else byte_val hi) /\
  v / 256
  = Z.quot v 256 - (if (v <? 0) && negb (v mod 256 =? 0) then 1 else 0).
Proof.
  intros v. pose proof (byte_val_range lo) as Hlo.
  pose proof (byte_val_range hi) as Hhi.
  pose proof (signed16_high_byte _ _ Hlo Hhi) as Hb. fold v in Hb.
  split; [|split; [|split; [|split; [|split]]]].
  - unfold get_sample. change (2 =? 1) with false. change (2 =? 2) with true.
    cbv iota. rewrite unpack_from_h_at. reflexivity.
  - unfold process_file_samples. cbn [length py_range].
    change (Z.of_nat 2 / 2) with 1. cbn [py_range Z.eqb Z.gtb Z.compare].
    change ((1 - 0 + 1 - 1) / 1) with 1.
    change (Z.to_nat 1) with 1%nat. cbn [seq map bind collect].
    change (0 + Z.of_nat 0 * 1) with 0.
    change (0 * 2) with (Z.of_nat (length (@nil byte))).
    pose proof (unpack_from_h_at [] [] lo hi) as E. cbn [app] in E.
    rewrite E. reflexivity.
  - apply signed16_range; assumption.
  - rewrite Hb. destruct (Z.geb_spec (byte_val hi) 128); lia.
  - exact Hb.
  - apply floor_vs_truncate.
Qed.

(** C4 as stated fails: the two bytes FF FF hold v = -1, which 256 does not
    divide; [get_sample] returns -1, the floor, where the quotient rounded
    toward zero is 0. *)
Lemma get_sample_does_not_truncate :
  signed16 (byte_val xff) (byte_val xff) = -1 /\
  Z.quot (-1) 256 = 0 /\
  get_sample 2 [xff; xff] 0 = Ok (-1) /\
  process_file_samples [xff; xff] = Ok [-1] /\
  get_sample 2 [xff; xff] 0
  <> Ok (Z.quot (signed16 (byte_val xff) (byte_val xff)) 256).
Proof.
  conjs; try (vm_compute; reflexivity).
  vm_compute. discriminate.
Qed.

(** C6: one second of 48000 Hz mono 16-bit silence (96000 zero bytes) gives
    48000 zero samples; the floating-cursor loop with ratio 48000 / 8000
    stops at its 8001st test, having selected 8000 of them (with fuel for
    8000 tests only it is still running); encoding these returns exactly
    1000 bytes. *)
Theorem silent_second_gives_1000_bytes (k : nat) :
  exists out,
    mono_samples 1 2 (repeat x00 (Z.to_nat 96000))
    = Ok (repeat 0 (Z.to_nat 48000)) /\
    resample (Z.to_nat 8000) 48000 8000 (repeat 0 (Z.to_nat 48000)) = None /\
    resample (Z.to_nat 8001 + k) 48000 8000 (repeat 0 (Z.to_nat 48000))
    = Some (Ok (repeat 0 (Z.to_nat 8000))) /\
    main_encode (Z.to_nat 8001 + k) 1 2 48000
      (repeat x00 (Z.to_nat 96000)) 8000 = Some (Ok out) /\
    Z.of_nat (length out) = 1000.
Proof.
  assert (Hmono : mono_samples 1 2 (repeat x00 (Z.to_nat 96000))
                  = Ok (repeat 0 (Z.to_nat 48000))).
  { replace (Z.to_nat 96000) with (2 * Z.to_nat 48000)%nat by lia.
    apply mono_samples_silence. }
  assert (Hshort : resample (Z.to_nat 8000) 48000 8000
                     (repeat 0 (Z.to_nat 48000)) = None).
  { unfold resample. change (negb (8000 =? 48000)) with true. cbv iota.
    rewrite ratio_48000_8000, resample_loop_cursor, repeat_length.
    rewrite Z2Nat.id by lia. rewrite cursor_48000_8000_short. reflexivity. }
  assert (Hres : resample (Z.to_nat 8001 + k) 48000 8000
                   (repeat 0 (Z.to_nat 48000))
                 = Some (Ok (repeat 0 (Z.to_nat 8000)))).
  { unfold resample. change (negb (8000 =? 48000)) with true. cbv iota.
    rewrite ratio_48000_8000, resample_loop_cursor, repeat_length.
    rewrite Z2Nat.id by lia.
    rewrite (cursor_loop_more_fuel _ _ _ _ _ k cursor_48000_8000).
    cbn [option_map result_map app].
    rewrite zeros_at, length_map, length_seq. reflexivity. }
  destruct (EncoderFacts.encode_total (repeat 0 (Z.to_nat 8000)))
    as (tr & out & _ & Ho & _ & _ & _ & _ & Hn & _).
  exists out. split; [exact Hmono|]. split; [exact Hshort|].
  split; [exact Hres|]. split.
  - unfold main_encode. rewrite Hmono, Hres. rewrite Ho. reflexivity.
  - rewrite Hn, repeat_length. rewrite Z2Nat.id by lia. reflexivity.
Qed.

(** *** The cursor leaves the input *)








End WavFacts.

(** ** The manifest *)

Module ManifestFacts.

Import Manifest.
Open Scope string_scope.

(** *** Dicts *)

Lemma dict_get_set_same (d : dict) (k : string) (v : json) :
  dict_get (dict_set d k v) k = Some v.
Proof.
  induction d as [|[k' v'] d IH]; cbn [dict_set dict_get].
  - rewrite String.eqb_refl. reflexivity.
  - destruct (String.eqb k' k) eqn:E; cbn [dict_get]; rewrite E; auto.
Qed.

Lemma dict_get_set_other (d : dict) (k k' : string) (v : json) :
  k' <> k -> dict_get (dict_set d k v) k' = dict_get d k'.
Proof.
  intros Hne. induction d as [|[k0 v0] d IH]; cbn [dict_set dict_get].
  - destruct (String.eqb_spec k k'); [congruence|reflexivity].
  - destruct (String.eqb_spec k0 k) as [->|Hk]; cbn [dict_get].
    + destruct (String.eqb_spec k k'); [congruence|reflexivity].
    + destruct (String.eqb k0 k'); [reflexivity|exact IH].
Qed.

Lemma dict_set_set (d : dict) (k : string) (v v' : json) :
  dict_set (dict_set d k v) k v' = dict_set d k v'.
Proof.
  induction d as [|[k0 v0] d IH]; cbn [dict_set].
  - rewrite String.eqb_refl. reflexivity.
  - destruct (String.eqb k0 k) eqn:E; cbn [dict_set]; rewrite E;
      [reflexivity|]. rewrite IH. reflexivity.
Qed.

(** Setting a key keeps the keys and their order; a new key goes last. *)
Lemma dict_set_keys (d : dict) (k : string) (v : json) :
  map fst (dict_set d k v)
  = if dict_mem d k then map fst d else (map fst d ++ [k])%list.
Proof.
  unfold dict_mem.
  induction d as [|[k0 v0] d IH]; cbn [dict_set dict_get map fst app];
    [reflexivity|].
  destruct (String.eqb k0 k); [reflexivity|].
  cbn [map fst]. rewrite IH. destruct (dict_get d k); reflexivity.
Qed.

(** *** The scan for a duplicate *)

Lemma file_is_new_entry (title f : string) :
  has_file f (new_entry title f) = true.
Proof.
  unfold has_file, new_entry, file_is. cbn [dict_get].
  change ("title" =? "file") with false. change ("file" =? "file") with true.
  cbv iota. apply String.eqb_refl.
Qed.

Lemma scan_absent (f : string) (l : list json) :
  Forall is_entry l -> count_file f l = 0%nat -> scan l f = Ok false.
Proof.
  unfold count_file. induction l as [|song l IH]; intros He Hc;
    [reflexivity|].
  inversion He as [|? ? [e ->] He']; subst.
  cbn [filter has_file scan] in *.
  destruct (file_is e f); [discriminate|]. apply IH; assumption.
Qed.

Lemma scan_false_count (f : string) (l : list json) :
  scan l f = Ok false -> Forall is_entry l /\ count_file f l = 0%nat.
Proof.
  unfold count_file. induction l as [|song l IH]; intros H.
  - split; [constructor|reflexivity].
  - destruct song; try discriminate. cbn [scan] in H.
    cbn [filter has_file].
    destruct (file_is d f); [discriminate|].
    destruct (IH H) as [He Hc].
    split; [constructor; [eexists; reflexivity|exact He]|exact Hc].
Qed.

Lemma scan_appended (title f : string) (l : list json) :
  scan l f = Ok false -> scan (l ++ [new_entry title f]) f = Ok true.
Proof.
  induction l as [|song l IH]; intros H.
  - cbn [app scan new_entry].
    pose proof (file_is_new_entry title f) as E.
    unfold has_file, new_entry in E. rewrite E. reflexivity.
  - destruct song; try discriminate. cbn [app scan] in *.
    destruct (file_is d f); [discriminate|]. apply IH. exact H.
Qed.

Lemma count_file_appended (title f : string) (l : list json) :
  count_file f (l ++ [new_entry title f]) = S (count_file f l).
Proof.
  unfold count_file. rewrite filter_app, length_app.
  cbn [filter]. rewrite file_is_new_entry. cbn [length]. lia.
Qed.

(** *** The two outcomes of update_manifest *)

Section Outcomes.

Variable basename : string -> string.
Variables input_title_path output_path : string.

Let title := rsplit_dot_head (basename input_title_path).
Let f := slashes output_path.

Lemma scanned_songs_list (d : dict) (l : list json) :
  scanned d l -> songs_list (JDict d) = l.
Proof.
  unfold scanned, songs_list. intros [->|[-> ->]]; reflexivity.
Qed.

Lemma songs_of_scanned (d : dict) (l : list json) :
  scanned d l ->
  exists d0,
    songs_of (JDict d) = Ok (d0, JList l) /\
    forall v, dict_set d0 "songs" v = dict_set d "songs" v.
Proof.
  unfold scanned, songs_of, dict_mem. intros [H|[H ->]]; rewrite H.
  - exists d. split; reflexivity.
  - exists (dict_set d "songs" (JList [])). split; [reflexivity|].
    intros v. apply dict_set_set.
Qed.

Lemma update_appends (s : fs) (d : dict) (l : list json) :
  load (manifest s) = JDict d ->
  scanned d l ->
  scan l f = Ok false ->
  let data' := JDict (dict_set d "songs" (JList (l ++ [new_entry title f]))) in
  update_manifest basename input_title_path output_path s
  = Ok ({| manifest := Document data'; written := written s ++ [data'] |},
        UpdatedManifest).
Proof.
  intros Hload Hsc Hscan data'. unfold update_manifest.
  destruct (songs_of_scanned d l Hsc) as (d0 & Hso & Hset).
  rewrite Hload, Hso. cbn [bind]. fold f. rewrite Hscan. cbn [bind negb].
  fold title. rewrite Hset. reflexivity.
Qed.

Lemma update_present (s : fs) (d : dict) (l : list json) :
  load (manifest s) = JDict d ->
  dict_get d "songs" = Some (JList l) ->
  scan l f = Ok true ->
  update_manifest basename input_title_path output_path s
  = Ok (s, AlreadyInManifest).
Proof.
  intros Hload Hget Hscan. unfold update_manifest.
  rewrite Hload. unfold songs_of, dict_mem. rewrite Hget.
  cbn [negb bind]. fold f. rewrite Hscan. reflexivity.
Qed.

Lemma update_appended_inv (s s' : fs) :
  update_manifest basename input_title_path output_path s
  = Ok (s', UpdatedManifest) ->
  exists d l,
    load (manifest s) = JDict d /\ scanned d l /\ scan l f = Ok false.
Proof.
  unfold update_manifest. fold f. fold title.
  destruct (load (manifest s)) as [| | | | |l0|d] eqn:Hload;
    try discriminate.
  unfold songs_of, dict_mem.
  destruct (dict_get d "songs") as [v|] eqn:Hget; cbn [negb bind].
  - destruct v as [| | | |str|l|d1]; try discriminate.
    + destruct str; discriminate.
    + destruct (scan l f) as [[|]|e] eqn:Hscan; cbn [bind negb];
        try discriminate.
      intros _. exists d, l. split; [reflexivity|].
      split; [left; exact Hget|exact Hscan].
    + destruct d1; discriminate.
  - intros _. exists d, []. split; [reflexivity|].
    split; [right; split; [exact Hget|reflexivity]|reflexivity].
Qed.

End Outcomes.

Lemma catalog_loaded (m : manifest_file) :
  is_catalog m ->
  exists d l, load m = JDict d /\ scanned d l /\ Forall is_entry l.
Proof.
  destruct m as [| |j]; cbn [is_catalog load].
  - intros _. exists [("songs", JList [])], [].
    split; [reflexivity|]. split; [left; reflexivity|constructor].
  - intros _. exists [("songs", JList [])], [].
    split; [reflexivity|]. split; [left; reflexivity|constructor].
  - destruct j as [| | | | | |d]; try contradiction.
    destruct (dict_get d "songs") as [v|] eqn:Hget.
    + destruct v as [| | | | |l|]; try contradiction.
      intros He. exists d, l. split; [reflexivity|].
      split; [left; exact Hget|exact He].
    + intros _. exists d, []. split; [reflexivity|].
      split; [right; split; [exact Hget|reflexivity]|constructor].
Qed.

(** *** The claims about the manifest *)

(** C7: on a catalog with no entry whose file is the normalized path f, the
    first call appends the entry (title, f) after the existing songs, in
    their order, and writes the whole document once; the second call finds
    it, returns the same file system (same manifest, nothing more written),
    and the catalog holds exactly one entry whose file is f. *)
Theorem upsert_twice_one_entry (basename : string -> string)
  (input_title_path output_path : string) (s : fs) :
  let title := rsplit_dot_head (basename input_title_path) in
  let f := slashes output_path in
  is_catalog (manifest s) ->
  count_file f (songs_list (load (manifest s))) = 0%nat ->
  exists data1,
    let s1 := {| manifest := Document data1;
                 written := (written s ++ [data1])%list |} in
    update_manifest basename input_title_path output_path s
    = Ok (s1, UpdatedManifest) /\
    songs_list data1
    = (songs_list (load (manifest s)) ++ [new_entry title f])%list /\
    is_catalog (manifest s1) /\
    update_manifest basename input_title_path output_path s1
    = Ok (s1, AlreadyInManifest) /\
    count_file f (songs_list data1) = 1%nat.
Proof.
  intros title f Hcat Hcount.
  destruct (catalog_loaded _ Hcat) as (d & l & Hload & Hsc & He).
  rewrite Hload, (scanned_songs_list d l Hsc) in Hcount.
  rewrite Hload, (scanned_songs_list d l Hsc).
  pose proof (scan_absent f l He Hcount) as Hscan.
  set (l1 := (l ++ [new_entry title f])%list).
  exists (JDict (dict_set d "songs" (JList l1))).
  assert (Hget1 : dict_get (dict_set d "songs" (JList l1)) "songs"
                  = Some (JList l1)) by apply dict_get_set_same.
  split; [|split; [|split; [|split]]].
  - apply (update_appends basename input_title_path output_path s d l);
      assumption.
  - unfold songs_list. rewrite Hget1. reflexivity.
  - cbn [manifest is_catalog]. rewrite Hget1.
    apply Forall_app. split; [exact He|].
    constructor; [eexists; reflexivity|constructor].
  - apply (update_present basename input_title_path output_path _
             (dict_set d "songs" (JList l1)) l1).
    + reflexivity.
    + exact Hget1.
    + apply scan_appended. exact Hscan.
  - unfold songs_list. rewrite Hget1. unfold l1.
    rewrite count_file_appended, Hcount. reflexivity.
Qed.

Lemma upsert_twice_one_entry_witness :
  exists data1,
    songs_list data1
    = [new_entry "old" "songs/old.dfpwm"; new_entry "new" "songs/new.dfpwm"].
Proof.
  destruct (upsert_twice_one_entry (fun p => p) "new.mp3" "songs\new.dfpwm"
              {| manifest :=
                   Document
                     (JDict [("songs",
                              JList [new_entry "old" "songs/old.dfpwm"])]);
                 written := [] |})
    as (data1 & _ & Hsongs & _).
  - cbn. constructor; [eexists; reflexivity|constructor].
  - vm_compute. reflexivity.
  - exists data1. exact Hsongs.
Defined.

(** C9: whenever a call appends, the document written and left in the
    manifest is the loaded dict [d] with "songs" set to the scanned list
    followed by one new object, which has exactly the two keys "title" (the
    base name of the title path up to its last dot) and "file" (the output
    path with forward slashes), in that order: the earlier songs are
    unchanged and in order, every other top-level key keeps its value, and
    the keys keep their order ("songs" is added last when the loaded dict
    lacked it). *)
Theorem append_preserves_manifest (basename : string -> string)
  (input_title_path output_path : string) (s s' : fs) :
  let title := rsplit_dot_head (basename input_title_path) in
  let f := slashes output_path in
  update_manifest basename input_title_path output_path s
  = Ok (s', UpdatedManifest) ->
  exists d l d' e,
    load (manifest s) = JDict d /\
    scanned d l /\
    manifest s' = Document (JDict d') /\
    written s' = (written s ++ [JDict d'])%list /\
    e = JDict [("title", JStr title); ("file", JStr f)] /\
    dict_get (match e with JDict o => o | _ => [] end) "title"
    = Some (JStr title) /\
    dict_get (match e with JDict o => o | _ => [] end) "file"
    = Some (JStr f) /\
    d' = dict_set d "songs" (JList (l ++ [e])) /\
    dict_get d' "songs" = Some (JList (l ++ [e])) /\
    (forall k, k <> "songs" -> dict_get d' k = dict_get d k) /\
    map fst d'
    = if dict_mem d "songs" then map fst d else (map fst d ++ ["songs"])%list.
Proof.
  intros title f H.
  destruct (update_appended_inv _ _ _ _ _ H) as (d & l & Hload & Hsc & Hscan).
  pose proof (update_appends basename input_title_path output_path
                s d l Hload Hsc Hscan) as Hrun.
  cbv zeta in Hrun. rewrite Hrun in H. injection H as <-.
  exists d, l,
    (dict_set d "songs"
       (JList (l ++ [JDict [("title", JStr title); ("file", JStr f)]]))),
    (JDict [("title", JStr title); ("file", JStr f)]).
  cbn [manifest written].
  split; [exact Hload|]. split; [exact Hsc|].
  split; [reflexivity|]. split; [reflexivity|]. split; [reflexivity|].
  split; [reflexivity|]. split; [reflexivity|]. split; [reflexivity|].
  split; [apply dict_get_set_same|].
  split; [intros k Hk; apply dict_get_set_other; exact Hk|].
  apply dict_set_keys.
Qed.

Lemma append_preserves_manifest_witness :
  exists d',
    dict_get d' "version" = Some (JInt 2) /\
    dict_get d' "songs"
    = Some (JList [JDict [("title", JStr "old"); ("file", JStr "old.dfpwm")];
                   JDict [("title", JStr "new");
                          ("file", JStr "music/new.dfpwm")]]).
Proof.
  destruct (append_preserves_manifest (fun p => p) "new.mp3"
              "music\new.dfpwm"
              {| manifest :=
                   Document
                     (JDict [("version", JInt 2);
                             ("songs", JList [new_entry "old" "old.dfpwm"])]);
                 written := [] |}
              {| manifest :=
                   Document
                     (JDict [("version", JInt 2);
                             ("songs",
                              JList [new_entry "old" "old.dfpwm";
                                     new_entry "new" "music/new.dfpwm"])]);
                 written :=
                   [JDict [("version", JInt 2);
                           ("songs",
                            JList [new_entry "old" "old.dfpwm";
                                   new_entry "new" "music/new.dfpwm"])]] |}
              eq_refl)
    as (d & l & d' & e & Hload & _ & Hm & _ & _ & _ & _ & _ & _ & _ & _).
  exists d'. cbn [manifest] in Hm. injection Hm as <-.
  split; reflexivity.
Defined.

End ManifestFacts.

(** ** More on the encoder *)

Module EncoderMore.

Import Encoder EncoderFacts.

(** *** Splitting a run *)

Lemma run_trace_app (xs ys : list Z) :
  forall st,
    run_trace loop_body st (xs ++ ys)
    = (tx <- run_trace loop_body st xs ;;
       ty <- run_trace loop_body (last tx st) ys ;;
       Ok (tx ++ ty)).
Proof.
  induction xs as [|x xs IH]; intros st.
  - cbn [app run_trace bind last].
    destruct (run_trace loop_body st ys); reflexivity.
  - cbn [app run_trace]. destruct (loop_body st x) as [st1|e]; [|reflexivity].
    cbn [bind]. rewrite IH.
    destruct (run_trace loop_body st1 xs) as [tx|e]; [|reflexivity].
    cbn [bind]. rewrite last_cons.
    destruct (run_trace loop_body (last tx st1) ys); reflexivity.
Qed.

Lemma bits_of_app (tx ty : list locals) :
  bits_of (tx ++ ty) = bits_of tx ++ bits_of ty.
Proof. unfold bits_of. apply map_app. Qed.

Lemma bits_of_length (tr : list locals) : length (bits_of tr) = length tr.
Proof. unfold bits_of. apply length_map. Qed.

(** *** A byte is determined by its eight bits *)

Lemma byte_bits_inj (v w : Z) :
  0 <= v < 256 -> 0 <= w < 256 -> byte_bits v = byte_bits w -> v = w.
Proof.
  intros Hv Hw H. unfold byte_bits in H. cbn [map] in H.
  injection H as H0 H1 H2 H3 H4 H5 H6 H7.
  apply Z.bits_inj'. intros n Hn.
  destruct (Z_lt_le_dec n 8) as [Hlt|Hge].
  - assert (Hc : n = 0 \/ n = 1 \/ n = 2 \/ n = 3 \/ n = 4 \/ n = 5 \/
                 n = 6 \/ n = 7) by lia.
    repeat (destruct Hc as [->|Hc]); try subst n; assumption.
  - rewrite (testbit_below v 8 n), (testbit_below w 8 n); auto.
Qed.

Lemma app_same_length {A : Type} (l1 : list A) :
  forall l1' l2 l2',
    length l1 = length l1' -> l1 ++ l2 = l1' ++ l2' -> l1 = l1' /\ l2 = l2'.
Proof.
  induction l1 as [|x l1 IH]; intros [|y l1'] l2 l2' Hlen H;
    try discriminate.
  - split; [reflexivity|exact H].
  - cbn [app] in H. injection H as -> H. injection Hlen as Hlen.
    destruct (IH _ _ _ Hlen H) as [-> ->]. split; reflexivity.
Qed.

Lemma unpack_bits_inj (a : list Z) :
  forall b,
    Forall (fun v => 0 <= v < 256) a -> Forall (fun v => 0 <= v < 256) b ->
    unpack_bits a = unpack_bits b -> a = b.
Proof.
  induction a as [|x a IH]; intros [|y b] Ha Hb H;
    try reflexivity; try discriminate.
  change (byte_bits x ++ unpack_bits a = byte_bits y ++ unpack_bits b) in H.
  inversion Ha as [|? ? Hx Ha']; subst. inversion Hb as [|? ? Hy Hb']; subst.
  apply app_same_length in H; [|reflexivity].
  destruct H as [Hh Ht].
  f_equal; [apply byte_bits_inj; assumption|apply IH; assumption].
Qed.

Lemma unpack_bits_firstn (k : nat) :
  forall o, unpack_bits (firstn k o) = firstn (8 * k) (unpack_bits o).
Proof.
  induction k as [|k IH]; intros o; [reflexivity|].
  destruct o as [|x o].
  - cbn [firstn unpack_bits flat_map]. rewrite firstn_nil. reflexivity.
  - change (unpack_bits (firstn (S k) (x :: o)))
      with (byte_bits x ++ unpack_bits (firstn k o)).
    change (unpack_bits (x :: o)) with (byte_bits x ++ unpack_bits o).
    rewrite firstn_app, IH.
    replace (8 * S k - length (byte_bits x))%nat with (8 * k)%nat
      by (cbn [byte_bits map length]; lia).
    rewrite (firstn_all2 (n := 8 * S k) (byte_bits x))
      by (cbn [byte_bits map length]; lia).
    reflexivity.
Qed.

Lemma Forall_firstn {A : Type} (P : A -> Prop) (k : nat) (l : list A) :
  Forall P l -> Forall P (firstn k l).
Proof.
  intros H. rewrite <- (firstn_skipn k l) in H.
  apply Forall_app in H. apply H.
Qed.

(** X1: the encoder is causal.  The bits emitted for the samples [xs] do not
    depend on the samples that follow: the output for [xs ++ ys] begins with
    the same [length xs] bits, and with the same [length xs / 8] whole bytes,
    as the output for [xs] alone. *)
Theorem encoder_is_causal (xs ys : list Z) :
  exists ox oxy,
    encode_dfpwm xs = Ok ox /\
    encode_dfpwm (xs ++ ys) = Ok oxy /\
    firstn (length xs) (unpack_bits oxy)
    = firstn (length xs) (unpack_bits ox) /\
    firstn (length xs / 8) oxy = firstn (length xs / 8) ox.
Proof.
  destruct (encode_total xs)
    as (tx & ox & Htx & Hox & Hlx & _ & _ & Hbx & _ & Hux).
  destruct (encode_total (xs ++ ys))
    as (txy & oxy & Htxy & Hoxy & _ & _ & _ & Hbxy & _ & Huxy).
  assert (Hbits : firstn (length xs) (unpack_bits oxy)
                  = firstn (length xs) (unpack_bits ox)).
  { rewrite run_trace_app, Htx in Htxy. cbn [bind] in Htxy.
    destruct (run_trace loop_body (last tx initial) ys) as [ty|e];
      [|discriminate].
    cbn [bind] in Htxy. injection Htxy as <-.
    rewrite Huxy, Hux, bits_of_app, <- app_assoc.
    rewrite <- (bits_of_length tx) in Hlx. rewrite <- Hlx.
    rewrite !firstn_app, !Nat.sub_diag, !firstn_all. reflexivity. }
  exists ox, oxy. split; [exact Hox|]. split; [exact Hoxy|].
  split; [exact Hbits|].
  apply unpack_bits_inj; try (apply Forall_firstn; assumption).
  rewrite !unpack_bits_firstn.
  assert (Hk : (8 * (length xs / 8) <= length xs)%nat)
    by (apply Nat.Div0.mul_div_le).
  assert (Hcut : forall l : list bool,
             firstn (8 * (length xs / 8)) l
             = firstn (8 * (length xs / 8)) (firstn (length xs) l))
    by (intros l; rewrite firstn_firstn, Nat.min_l by lia; reflexivity).
  rewrite (Hcut (unpack_bits oxy)), (Hcut (unpack_bits ox)), Hbits.
  reflexivity.
Qed.

(** *** Runs with a constant bit *)

(** The bit emitted while every sample is on one side of every reachable
    charge: [b = false] for samples at or below -128, [b = true] for samples
    above 127. *)
Lemma run_constant_bit (b : bool) (samples : list Z) :
  Forall (fun x => if b then 127 < x else x <= -128) samples ->
  forall st,
    packer_ok st -> -128 <= charge st <= 127 ->
    exists tr,
      run_trace loop_body st samples = Ok tr /\
      bits_of tr = repeat b (length samples).
Proof.
  induction 1 as [|x rest Hx _ IH]; intros st Hok Hc.
  - exists []. split; reflexivity.
  - destruct (loop_body_total st x Hok) as (st1 & H1 & Hok1 & Hr1 & _ & Hv1).
    destruct (IH st1 Hok1 (proj1 Hr1)) as (tr & Ht & Hb).
    exists (st1 :: tr). cbn [run_trace]. rewrite H1. cbn [bind].
    rewrite Ht. cbn [bind]. split; [reflexivity|].
    cbn [bits_of map length repeat]. fold (bits_of tr). rewrite Hb. f_equal.
    change (match bit st1 with Some b0 => b0 | None => false end)
      with (snd (view st1)).
    rewrite Hv1. cbn [DeltaSpec.step snd fst view DeltaSpec.charge].
    rewrite Z.gtb_ltb. destruct b.
    + apply Z.ltb_lt. lia.
    + apply Z.ltb_ge. lia.
Qed.

Lemma unpack_zero_bytes (k : nat) :
  unpack_bits (repeat 0 k) = repeat false (8 * k).
Proof.
  induction k as [|k IH]; [reflexivity|].
  replace (8 * S k)%nat with (8 + 8 * k)%nat by lia.
  rewrite repeat_app, <- IH. reflexivity.
Qed.

Lemma unpack_full_bytes (k : nat) :
  unpack_bits (repeat 255 k) = repeat true (8 * k).
Proof.
  induction k as [|k IH]; [reflexivity|].
  replace (8 * S k)%nat with (8 + 8 * k)%nat by lia.
  rewrite repeat_app, <- IH. reflexivity.
Qed.

Lemma ceil8_covers (n k : nat) :
  Z.of_nat k = (Z.of_nat n + 7) / 8 -> (n <= 8 * k)%nat.
Proof.
  intros H. pose proof (Z.mul_succ_div_gt (Z.of_nat n + 7) 8 ltac:(lia)).
  lia.
Qed.

Lemma Forall_repeat {A : Type} (P : A -> Prop) (a : A) (k : nat) :
  P a -> Forall P (repeat a k).
Proof. intros H. induction k; constructor; assumption. Qed.

(** X2: samples at or below -128 (the lowest sample value and anything under
    it) never exceed the charge, so every emitted bit is 0 and the output is
    ceil(N / 8) zero bytes. *)
Theorem lowest_samples_give_zero_bytes (samples : list Z) :
  Forall (fun x => x <= -128) samples ->
  encode_dfpwm samples
  = Ok (repeat 0 (Z.to_nat ((Z.of_nat (length samples) + 7) / 8))).
Proof.
  intros Hlow.
  destruct (encode_total samples)
    as (tr & out & Ht & Ho & _ & _ & _ & Hb & Hn & Hu).
  destruct (run_constant_bit false samples Hlow initial initial_ok)
    as (tr' & Ht' & Hbits); [cbn; lia|].
  rewrite Ht in Ht'. injection Ht' as <-.
  rewrite Ho. f_equal.
  rewrite <- Hn, Nat2Z.id.
  apply unpack_bits_inj; [exact Hb|apply Forall_repeat; lia|].
  rewrite Hu, Hbits, unpack_zero_bytes, <- repeat_app. f_equal.
  pose proof (ceil8_covers _ _ Hn). lia.
Qed.

Lemma lowest_samples_give_zero_bytes_witness :
  encode_dfpwm [-128; -300; -128; -128; -128; -128; -128; -128; -128]
  = Ok [0; 0].
Proof.
  apply (lowest_samples_give_zero_bytes
           [-128; -300; -128; -128; -128; -128; -128; -128; -128]).
  repeat constructor; lia.
Defined.

Lemma byte_bits_low_ones (r : nat) :
  (0 < r < 8)%nat ->
  byte_bits (2 ^ Z.of_nat r - 1) = repeat true r ++ repeat false (8 - r).
Proof.
  intros Hr.
  assert (Hc : (r = 1 \/ r = 2 \/ r = 3 \/ r = 4 \/ r = 5 \/ r = 6 \/
                r = 7)%nat) by lia.
  repeat (destruct Hc as [->|Hc]); try subst r; reflexivity.
Qed.

(** X3: samples above 127 (beyond the sample range) always exceed the charge,
    so every emitted bit is 1: the output is N / 8 bytes 255, followed, when
    8 does not divide N, by one byte holding N mod 8 low one bits. *)
Theorem overdriven_samples_give_one_bits (samples : list Z) :
  Forall (fun x => 127 < x) samples ->
  let n := length samples in
  encode_dfpwm samples
  = Ok (repeat 255 (n / 8)
        ++ (if (n mod 8 =? 0)%nat then []
            else [2 ^ Z.of_nat (n mod 8) - 1])).
Proof.
  intros Hhigh n.
  destruct (encode_total samples)
    as (tr & out & Ht & Ho & _ & _ & _ & Hb & Hn & Hu).
  destruct (run_constant_bit true samples Hhigh initial initial_ok)
    as (tr' & Ht' & Hbits); [cbn; lia|].
  rewrite Ht in Ht'. injection Ht' as <-. fold n in Hn, Hu, Hbits.
  rewrite Ho. f_equal.
  pose proof (Nat.div_mod_eq n 8) as Hdm.
  pose proof (Nat.mod_upper_bound n 8 ltac:(lia)) as Hr.
  assert (Hlen : length out = (n / 8 + if (n mod 8 =? 0)%nat then 0 else 1)%nat).
  { assert (E : (Z.of_nat n + 7) / 8
                = Z.of_nat (n / 8 + if (n mod 8 =? 0)%nat then 0 else 1)).
    { destruct (Nat.eqb_spec (n mod 8) 0) as [H0|H0].
      - symmetry. apply Z.div_unique with (r := 7); lia.
      - symmetry.
        apply Z.div_unique with (r := Z.of_nat (n mod 8) - 1); lia. }
    lia. }
  apply unpack_bits_inj; [exact Hb| |].
  - apply Forall_app. split; [apply Forall_repeat; lia|].
    destruct (Nat.eqb_spec (n mod 8) 0); [constructor|].
    constructor; [|constructor].
    assert (0 < 2 ^ Z.of_nat (n mod 8) <= 2 ^ 7).
    { split; [apply Z.pow_pos_nonneg; lia|apply Z.pow_le_mono_r; lia]. }
    change (2 ^ 7) with 128 in *. lia.
  - rewrite Hu, Hbits, unpack_bits_app, unpack_full_bytes, Hlen.
    destruct (Nat.eqb_spec (n mod 8) 0) as [H0|H0].
    + cbn [unpack_bits flat_map]. f_equal; [f_equal; lia|].
      replace (8 * (n / 8 + 0) - n)%nat with 0%nat by lia. reflexivity.
    + cbn [unpack_bits flat_map]. rewrite app_nil_r.
      rewrite byte_bits_low_ones by lia.
      rewrite app_assoc, <- repeat_app. f_equal; f_equal; lia.
Qed.

Lemma overdriven_samples_give_one_bits_witness :
  encode_dfpwm [128; 500; 128; 128; 128; 128; 128; 128; 128; 1000]
  = Ok [255; 3].
Proof.
  apply (overdriven_samples_give_one_bits
           [128; 500; 128; 128; 128; 128; 128; 128; 128; 1000]).
  repeat constructor; lia.
Defined.

(** *** Silence *)

Lemma for_loop_app (xs ys : list Z) :
  forall st,
    for_loop loop_body st (xs ++ ys)
    = (st' <- for_loop loop_body st xs ;; for_loop loop_body st' ys).
Proof.
  induction xs as [|x xs IH]; intros st; [reflexivity|].
  cbn [app for_loop]. destruct (loop_body st x) as [st1|e]; [|reflexivity].
  cbn [bind]. apply IH.
Qed.

(** On eight zero samples the predictor and the packer come back to where
    they started, and one byte 102 is appended. *)
Lemma silence_byte (ob : list Z) (b : option bool) (s c : option Z) :
  exists b' s' c',
    for_loop loop_body (mkLocals 0 0 false ob 0 0 b s c) (repeat 0 8)
    = Ok (mkLocals 0 0 false (ob ++ [102]) 0 0 b' s' c').
Proof. do 3 eexists. vm_compute. reflexivity. Qed.

Lemma silence_bytes (q : nat) :
  forall ob b s c,
  exists b' s' c',
    for_loop loop_body (mkLocals 0 0 false ob 0 0 b s c) (repeat 0 (8 * q))
    = Ok (mkLocals 0 0 false (ob ++ repeat 102 q) 0 0 b' s' c').
Proof.
  induction q as [|q IH]; intros ob b s c.
  - exists b, s, c. cbn [Nat.mul repeat for_loop]. rewrite app_nil_r.
    reflexivity.
  - replace (8 * S q)%nat with (8 + 8 * q)%nat by lia.
    rewrite repeat_app, for_loop_app.
    destruct (silence_byte ob b s c) as (b1 & s1 & c1 & ->). cbn [bind].
    destruct (IH (ob ++ [102]) b1 s1 c1) as (b2 & s2 & c2 & ->).
    exists b2, s2, c2. rewrite <- app_assoc. reflexivity.
Qed.

Lemma silence_tail (r : nat) (ob : list Z) (b : option bool)
  (s c : option Z) :
  (r < 8)%nat ->
  (st <- for_loop loop_body (mkLocals 0 0 false ob 0 0 b s c) (repeat 0 r) ;;
   finish st)
  = Ok (ob ++ (if (r =? 0)%nat then [] else [102 mod 2 ^ Z.of_nat r])).
Proof.
  intros Hr.
  assert (Hc : (r = 0 \/ r = 1 \/ r = 2 \/ r = 3 \/ r = 4 \/ r = 5 \/
                r = 6 \/ r = 7)%nat) by lia.
  destruct Hc as [->|Hc]; [cbn; rewrite app_nil_r; reflexivity|].
  repeat (destruct Hc as [->|Hc]); try subst r; vm_compute; reflexivity.
Qed.

Lemma last_app_default {A : Type} (l1 l2 : list A) :
  forall d, last (l1 ++ l2) d = last l2 (last l1 d).
Proof.
  induction l1 as [|a l1 IH]; intros d; [reflexivity|].
  cbn [app]. rewrite !last_cons. apply IH.
Qed.

Lemma silence_quad (st : locals) :
  at_rest st ->
  exists tr,
    run_trace loop_body st (repeat 0 4) = Ok tr /\
    bits_of tr = [false; true; true; false] /\
    map (fun x => (charge x, strength x)) tr
    = [(-6, 1); (-4, 0); (2, 1); (0, 0)] /\
    at_rest (last tr st).
Proof.
  destruct st as [c s p ob cb bi b stp chg].
  intros (Hc & Hs & Hp & [[Hi Hb]|[Hi Hb]]); cbn in Hc, Hs, Hp, Hi, Hb;
    subst c s p bi cb; eexists; (split; [vm_compute; reflexivity|]);
    (split; [reflexivity|]); (split; [reflexivity|]);
    unfold at_rest; cbn; intuition congruence.
Qed.

Lemma silence_cycle (k : nat) :
  forall st, at_rest st ->
  exists tr,
    run_trace loop_body st (repeat 0 (4 * k)) = Ok tr /\
    bits_of tr = concat (repeat [false; true; true; false] k) /\
    at_rest (last tr st).
Proof.
  induction k as [|k IH]; intros st Hst.
  - exists []. split; [reflexivity|]. split; [reflexivity|]. exact Hst.
  - replace (4 * S k)%nat with (4 + 4 * k)%nat by lia.
    rewrite repeat_app, run_trace_app.
    destruct (silence_quad st Hst) as (t1 & -> & Hb1 & Hv1 & Hr1).
    cbn [bind].
    destruct (IH (last t1 st) Hr1) as (t2 & -> & Hb2 & Hr2). cbn [bind].
    exists (t1 ++ t2)%list. split; [reflexivity|].
    split; [rewrite bits_of_app, Hb1, Hb2; reflexivity|].
    rewrite last_app_default. exact Hr2.
Qed.

(** X4: silence.  On zero samples the encoder cycles through the bits
    0, 1, 1, 0 and is back in its initial predictor state (charge 0,
    strength 0, previous bit 0) after every fourth sample, so N zero samples
    encode to N / 8 bytes 102 (hexadecimal 66), followed, when 8 does not
    divide N, by the N mod 8 low bits of 102. *)
Theorem silence_encodes_to_0x66 (n k : nat) :
  encode_dfpwm (repeat 0 n)
  = Ok (repeat 102 (n / 8)
        ++ (if (n mod 8 =? 0)%nat then []
            else [102 mod 2 ^ Z.of_nat (n mod 8)])) /\
  exists tr,
    run_trace loop_body initial (repeat 0 (4 * k)) = Ok tr /\
    bits_of tr = concat (repeat [false; true; true; false] k) /\
    charge (last tr initial) = 0 /\
    strength (last tr initial) = 0 /\
    previous_bit (last tr initial) = false.
Proof.
  split.
  - pose proof (Nat.div_mod_eq n 8) as Hdm.
    pose proof (Nat.mod_upper_bound n 8 ltac:(lia)) as Hr.
    rewrite Hdm at 1. rewrite repeat_app.
    unfold encode_dfpwm, encode_with, initial. rewrite for_loop_app.
    destruct (silence_bytes (n / 8) [] None None None) as (b & s & c & ->).
    cbn [bind app]. apply silence_tail. exact Hr.
  - assert (H0 : at_rest initial)
      by (unfold at_rest; cbn; intuition congruence).
    destruct (silence_cycle k initial H0)
      as (tr & Hrun & Hbits & Hc & Hs & Hp & _).
    exists tr. auto.
Qed.

End EncoderMore.

(** ** More on sample extraction and resampling *)

Module WavMore.

Import Wav WavFacts Frames.

(** *** Collecting results *)

Lemma collect_map_ok {A B : Type} (f : A -> result B) (g : A -> B)
  (l : list A) :
  (forall a, In a l -> f a = Ok (g a)) -> collect f l = Ok (map g l).
Proof.
  induction l as [|a l IH]; intros H; [reflexivity|].
  cbn [collect map]. rewrite (H a) by (left; reflexivity). cbn [bind].
  rewrite IH by (intros b Hb; apply H; right; exact Hb). reflexivity.
Qed.

Lemma collect_app {A B : Type} (f : A -> result B) (l1 l2 : list A) :
  collect f (l1 ++ l2)
  = (b1 <- collect f l1 ;; b2 <- collect f l2 ;; Ok (b1 ++ b2)).
Proof.
  induction l1 as [|a l1 IH].
  - cbn [app collect bind]. destruct (collect f l2); reflexivity.
  - cbn [app collect]. destruct (f a) as [b|e]; [|reflexivity].
    cbn [bind]. rewrite IH.
    destruct (collect f l1) as [b1|e]; [|reflexivity]. cbn [bind].
    destruct (collect f l2); reflexivity.
Qed.

Lemma map_nth_seq {A : Type} (d : A) (l : list A) :
  map (fun k => nth k l d) (seq 0 (length l)) = l.
Proof.
  induction l as [|a l IH]; [reflexivity|].
  cbn [length seq map nth]. rewrite <- seq_shift, map_map. f_equal.
  exact IH.
Qed.

(** *** The 16-bit loop of process_file *)

Lemma unpack_from_h_in_range (frames : list byte) (k : nat) :
  (2 * k + 2 <= length frames)%nat ->
  unpack_from_h frames (Z.of_nat (2 * k))
  = Ok (signed16 (byte_val (nth (2 * k) frames x00))
                 (byte_val (nth (2 * k + 1) frames x00))).
Proof.
  intros Hk. unfold unpack_from_h.
  assert (E0 : (Z.of_nat (2 * k) <? 0) = false) by (apply Z.ltb_ge; lia).
  cbv zeta. rewrite E0. cbv iota. rewrite E0.
  destruct (Z.ltb_spec (Z.of_nat (length frames) - Z.of_nat (2 * k)) 2);
    [lia|].
  cbn [orb]. rewrite Nat2Z.id.
  replace (Z.to_nat (Z.of_nat (2 * k) + 1)) with (2 * k + 1)%nat by lia.
  reflexivity.
Qed.

Lemma reduced_high_byte (lo hi : byte) : reduced (lo, hi) = signed8 hi.
Proof.
  unfold reduced, signed8. cbn [fst snd].
  apply signed16_high_byte; apply byte_val_range.
Qed.

Lemma signed8_range (b : byte) : -128 <= signed8 b <= 127.
Proof.
  unfold signed8. pose proof (byte_val_range b). cbv zeta.
  destruct (Z.geb_spec (byte_val b) 128); lia.
Qed.

Lemma process_file_samples_ok (frames : list byte) :
  process_file_samples frames
  = Ok (map (fun k => signed8 (nth (2 * k + 1) frames x00))
          (seq 0 (length frames / 2))).
Proof.
  unfold process_file_samples, py_range.
  change (1 =? 0) with false. change (1 >? 0) with true. cbv iota.
  replace (Z.to_nat ((Z.of_nat (length frames) / 2 - 0 + 1 - 1) / 1))
    with (length frames / 2)%nat.
  2:{ rewrite Z.div_1_r.
      replace (Z.of_nat (length frames) / 2 - 0 + 1 - 1)
        with (Z.of_nat (length frames) / 2) by lia.
      change 2 with (Z.of_nat 2). rewrite <- Nat2Z.inj_div. lia. }
  cbn [bind].
  rewrite (collect_map_ok _
             (fun i => signed8 (nth (Z.to_nat (i * 2) + 1) frames x00))).
  - rewrite map_map. f_equal. apply map_ext. intros k.
    replace (Z.to_nat ((0 + Z.of_nat k * 1) * 2)) with (2 * k)%nat by lia.
    reflexivity.
  - intros i Hi. apply in_map_iff in Hi. destruct Hi as (k & <- & Hk).
    apply in_seq in Hk.
    pose proof (Nat.Div0.mul_div_le (length frames) 2) as Hle.
    replace ((0 + Z.of_nat k * 1) * 2) with (Z.of_nat (2 * k)) by lia.
    rewrite unpack_from_h_in_range by lia. cbn [bind].
    rewrite Nat2Z.id. f_equal.
    apply (reduced_high_byte (nth (2 * k) frames x00)
             (nth (2 * k + 1) frames x00)).
Qed.

(** X5: the 16-bit loop of [process_file] never raises.  It yields one sample
    per complete pair of bytes, len(frames) // 2 of them, an odd last byte
    being ignored; each sample is the high byte of its pair read as a signed
    byte, so it lies in [-128, 127] and the low byte plays no part. *)
Theorem process_file_samples_total (frames : list byte) :
  exists samples,
    process_file_samples frames = Ok samples /\
    samples = map (fun k => signed8 (nth (2 * k + 1) frames x00))
                (seq 0 (length frames / 2)) /\
    length samples = (length frames / 2)%nat /\
    Forall (fun v => -128 <= v <= 127) samples.
Proof.
  eexists. split; [apply process_file_samples_ok|].
  split; [reflexivity|]. split.
  - rewrite length_map, length_seq. reflexivity.
  - apply Forall_forall. intros v Hv. apply in_map_iff in Hv.
    destruct Hv as (k & <- & _). apply signed8_range.
Qed.

(** *** main on mono 16-bit input *)

Lemma collect_ext {A B : Type} (f g : A -> result B) (l : list A) :
  (forall a, In a l -> f a = g a) -> collect f l = collect g l.
Proof.
  induction l as [|a l IH]; intros H; [reflexivity|].
  cbn [collect]. rewrite (H a) by (left; reflexivity).
  rewrite IH by (intros b Hb; apply H; right; exact Hb). reflexivity.
Qed.

Lemma collect_map_arg {A B C : Type} (f : B -> result C) (h : A -> B)
  (l : list A) :
  collect f (map h l) = collect (fun a => f (h a)) l.
Proof.
  induction l as [|a l IH]; [reflexivity|].
  cbn [map collect]. rewrite IH. reflexivity.
Qed.

Lemma frame_sample_mono (sampwidth : Z) (frames : list byte) (i : Z) :
  frame_sample 1 sampwidth frames i = get_sample sampwidth frames i.
Proof.
  unfold frame_sample. change (1 >? 1) with false. cbv iota.
  destruct (get_sample sampwidth frames i); reflexivity.
Qed.

(** The first [n] iterations of the mono 16-bit loop of [main] are those of
    [process_file] when [n] pairs of bytes are there. *)
Lemma mono16_prefix (frames : list byte) (n : nat) :
  (2 * n <= length frames)%nat ->
  collect (frame_sample 1 2 frames)
    (map (fun k => 0 + Z.of_nat k * (2 * 1)) (seq 0 n))
  = Ok (map (fun k => signed8 (nth (2 * k + 1) frames x00)) (seq 0 n)).
Proof.
  intros Hn. rewrite collect_map_arg. apply collect_map_ok.
  intros k Hk. apply in_seq in Hk.
  rewrite frame_sample_mono. unfold get_sample.
  change (2 =? 1) with false. change (2 =? 2) with true. cbv iota.
  replace (0 + Z.of_nat k * (2 * 1)) with (Z.of_nat (2 * k)) by lia.
  rewrite unpack_from_h_in_range by lia. cbn [bind]. f_equal.
  apply (reduced_high_byte (nth (2 * k) frames x00)
           (nth (2 * k + 1) frames x00)).
Qed.

(** X6: on mono 16-bit frames of even length the extraction loop of [main]
    returns the same samples as the loop of [process_file]; on frames of odd
    length, where [process_file] drops the last byte, [main] raises
    struct.error at the incomplete last frame. *)
Theorem main_and_process_file_on_mono16 (frames : list byte) :
  mono_samples 1 2 frames
  = if Nat.even (length frames) then process_file_samples frames
    else Raise StructError.
Proof.
  rewrite process_file_samples_ok.
  unfold mono_samples, py_range.
  change (2 * 1 =? 0) with false. change (2 * 1 >? 0) with true. cbv iota.
  cbn [bind].
  pose proof (Nat.div_mod_eq (length frames) 2) as Hdm.
  pose proof (Nat.mod_upper_bound (length frames) 2 ltac:(lia)) as Hr.
  destruct (Nat.even (length frames)) eqn:Hev.
  - assert (Hm : (length frames mod 2 = 0)%nat).
    { apply Nat.even_spec in Hev. destruct Hev as [m Hm].
      rewrite Hm, Nat.mul_comm. apply Nat.Div0.mod_mul. }
    replace (Z.to_nat ((Z.of_nat (length frames) - 0 + 2 * 1 - 1) / (2 * 1)))
      with (length frames / 2)%nat.
    2:{ assert (E : (Z.of_nat (length frames) - 0 + 2 * 1 - 1) / (2 * 1)
                    = Z.of_nat (length frames / 2))
          by (symmetry; apply Z.div_unique with (r := 1); lia).
        rewrite E. lia. }
    apply mono16_prefix. lia.
  - assert (Hm : (length frames mod 2 = 1)%nat).
    { rewrite <- Nat.negb_odd in Hev. apply negb_false_iff in Hev.
      apply Nat.odd_spec in Hev. destruct Hev as [m Hm].
      rewrite Hm, Nat.add_comm, Nat.mul_comm, Nat.Div0.mod_add. reflexivity. }
    replace (Z.to_nat ((Z.of_nat (length frames) - 0 + 2 * 1 - 1) / (2 * 1)))
      with (length frames / 2 + 1)%nat.
    2:{ assert (E : (Z.of_nat (length frames) - 0 + 2 * 1 - 1) / (2 * 1)
                    = Z.of_nat (length frames / 2 + 1))
          by (symmetry; apply Z.div_unique with (r := 0); lia).
        rewrite E. lia. }
    rewrite seq_app, map_app, collect_app, mono16_prefix by lia.
    cbn [bind seq map collect Nat.add].
    rewrite frame_sample_mono. unfold get_sample, unpack_from_h.
    change (2 =? 1) with false. change (2 =? 2) with true. cbv iota zeta.
    assert (E0 : (0 + Z.of_nat (length frames / 2) * (2 * 1) <? 0) = false)
      by (apply Z.ltb_ge; lia).
    rewrite E0. cbv iota. rewrite E0.
    match goal with
    | |- context [?a - ?b <? 2] => destruct (Z.ltb_spec (a - b) 2); [|lia]
    end.
    reflexivity.
Qed.

(** *** 8-bit input and unsupported widths *)

Lemma py_getitem_in_range {A : Type} (d : A) (l : list A) (k : nat) :
  (k < length l)%nat -> py_getitem l (Z.of_nat k) = Ok (nth k l d).
Proof.
  intros Hk. unfold py_getitem.
  destruct (Z.ltb_spec (Z.of_nat k) 0); [lia|]. cbv zeta.
  destruct (Z.ltb_spec (Z.of_nat k) 0); [lia|].
  destruct (Z.leb_spec (Z.of_nat (length l)) (Z.of_nat k)); [lia|].
  cbn [orb]. rewrite Nat2Z.id, (nth_error_nth' l d) by lia. reflexivity.
Qed.

(** X7: on mono 8-bit frames the extraction loop of [main] never raises: it
    maps every byte b, read as unsigned, to b - 128, one sample per byte and
    each in [-128, 127]. *)
Theorem mono_8bit_samples (frames : list byte) :
  mono_samples 1 1 frames = Ok (map (fun b => byte_val b - 128) frames) /\
  Forall (fun v => -128 <= v <= 127) (map (fun b => byte_val b - 128) frames).
Proof.
  split.
  - unfold mono_samples, py_range.
    change (1 * 1 =? 0) with false. change (1 * 1 >? 0) with true. cbv iota.
    replace (Z.to_nat ((Z.of_nat (length frames) - 0 + 1 * 1 - 1) / (1 * 1)))
      with (length frames)
      by (change (1 * 1) with 1; rewrite Z.div_1_r; lia).
    cbn [bind]. rewrite collect_map_arg.
    rewrite (collect_map_ok _ (fun k => byte_val (nth k frames x00) - 128)).
    + rewrite <- (map_map (fun k => nth k frames x00)
                    (fun b => byte_val b - 128)).
      rewrite map_nth_seq. reflexivity.
    + intros k Hk. apply in_seq in Hk. rewrite frame_sample_mono.
      unfold get_sample. change (1 =? 1) with true. cbv iota.
      replace (0 + Z.of_nat k * (1 * 1)) with (Z.of_nat k) by lia.
      rewrite (py_getitem_in_range x00) by lia. reflexivity.
  - apply Forall_forall. intros v Hv. apply in_map_iff in Hv.
    destruct Hv as (b & <- & _). pose proof (byte_val_range b). lia.
Qed.

Lemma fold_zero_channels (chs : list Z) (g : Z -> result Z) :
  (forall ch, g ch = Ok 0) ->
  fold_left (fun acc ch => v <- acc ;; x <- g ch ;; Ok (v + x)) chs (Ok 0)
  = Ok 0.
Proof.
  intros Hg. induction chs as [|ch chs IH]; [reflexivity|].
  cbn [fold_left bind]. rewrite Hg. cbn [bind Z.add]. exact IH.
Qed.

(** X8: a sample width other than 1 or 2 bytes is not rejected.  With a
    positive frame size every frame, whatever its bytes and the number of
    channels, becomes the sample 0: the audio is replaced by
    ceil(len(frames) / frame size) zero samples and nothing is raised. *)
Theorem unsupported_width_gives_zeros (nchannels sampwidth : Z)
  (frames : list byte) :
  sampwidth <> 1 -> sampwidth <> 2 -> 0 < sampwidth * nchannels ->
  mono_samples nchannels sampwidth frames
  = Ok (repeat 0
          (Z.to_nat ((Z.of_nat (length frames) + sampwidth * nchannels - 1)
                     / (sampwidth * nchannels)))).
Proof.
  intros H1 H2 Hstep. unfold mono_samples, py_range.
  destruct (Z.eqb_spec (sampwidth * nchannels) 0); [lia|].
  rewrite Z.gtb_ltb. destruct (Z.ltb_spec 0 (sampwidth * nchannels)); [|lia].
  cbn [bind].
  rewrite (collect_const _ 0).
  - rewrite length_map, length_seq, Z.sub_0_r. reflexivity.
  - intros i _. unfold frame_sample.
    assert (Hget : forall j, get_sample sampwidth frames j = Ok 0).
    { intros j. unfold get_sample.
      destruct (Z.eqb_spec sampwidth 1); [contradiction|].
      destruct (Z.eqb_spec sampwidth 2); [contradiction|]. reflexivity. }
    rewrite Hget. cbn [bind].
    destruct (nchannels >? 1); [|reflexivity].
    unfold py_range. change (1 =? 0) with false. change (1 >? 0) with true.
    cbv iota. cbn [bind].
    rewrite (fold_zero_channels _
               (fun ch => get_sample sampwidth frames (i + ch * sampwidth)))
      by (intros ch; apply Hget).
    reflexivity.
Qed.

Lemma unsupported_width_gives_zeros_witness :
  mono_samples 2 3 [x01; x02; x03; x04; x05; x06; x07] = Ok [0; 0].
Proof.
  apply (unsupported_width_gives_zeros 2 3
           [x01; x02; x03; x04; x05; x06; x07]); lia.
Defined.

(** *** Downmix of 16-bit frames *)

Lemma frame_bytes_length (fr : list sample16) :
  length (frame_bytes fr) = (2 * length fr)%nat.
Proof.
  induction fr as [|p fr IH]; [reflexivity|].
  change (frame_bytes (p :: fr)) with (fst p :: snd p :: frame_bytes fr).
  cbn [length]. rewrite IH. lia.
Qed.

Lemma frame_bytes_app (f1 f2 : list sample16) :
  frame_bytes (f1 ++ f2) = frame_bytes f1 ++ frame_bytes f2.
Proof. unfold frame_bytes. apply flat_map_app. Qed.

Lemma interleave_length (c : nat) (fs : list (list sample16)) :
  Forall (fun fr => length fr = c) fs ->
  length (interleave fs) = (2 * c * length fs)%nat.
Proof.
  induction 1 as [|fr fs Hfr _ IH]; [cbn; lia|].
  change (interleave (fr :: fs)) with (frame_bytes fr ++ interleave fs).
  cbn [length]. rewrite length_app, frame_bytes_length, IH, Hfr. lia.
Qed.

(** Reading the sample that follows [f1] in a frame placed after [pre]. *)
Lemma get_sample_in_frame (pre post : list byte) (f1 f2 : list sample16)
  (p : sample16) :
  get_sample 2 (pre ++ frame_bytes (f1 ++ p :: f2) ++ post)
    (Z.of_nat (length pre) + Z.of_nat (length f1) * 2)
  = Ok (reduced p).
Proof.
  unfold get_sample. change (2 =? 1) with false. change (2 =? 2) with true.
  cbv iota. rewrite frame_bytes_app.
  change (frame_bytes (p :: f2)) with (fst p :: snd p :: frame_bytes f2).
  replace (pre ++ (frame_bytes f1 ++ fst p :: snd p :: frame_bytes f2) ++ post)
    with ((pre ++ frame_bytes f1)
          ++ fst p :: snd p :: (frame_bytes f2 ++ post))
    by (rewrite <- !app_assoc; reflexivity).
  replace (Z.of_nat (length pre) + Z.of_nat (length f1) * 2)
    with (Z.of_nat (length (pre ++ frame_bytes f1)))
    by (rewrite length_app, frame_bytes_length; lia).
  rewrite unpack_from_h_at. reflexivity.
Qed.

Lemma total_cons (x : Z) (l : list Z) : total (x :: l) = x + total l.
Proof. reflexivity. Qed.

Lemma fold_channels (g : Z -> result Z) (r : nat -> Z) (h : nat -> Z)
  (l : list nat) :
  (forall k, In k l -> g (h k) = Ok (r k)) ->
  forall v0,
    fold_left (fun acc ch => v <- acc ;; x <- g ch ;; Ok (v + x))
      (map h l) (Ok v0)
    = Ok (v0 + total (map r l)).
Proof.
  induction l as [|k l IH]; intros H v0.
  - cbn. f_equal. lia.
  - cbn [map fold_left bind]. rewrite (H k) by (left; reflexivity).
    cbn [bind]. rewrite IH by (intros j Hj; apply H; right; exact Hj).
    rewrite total_cons. f_equal. lia.
Qed.

(** One iteration of the extraction loop on a whole frame of [c] channels. *)
Lemma frame_sample_average (pre post : list byte) (fr : list sample16) :
  (1 <= length fr)%nat ->
  frame_sample (Z.of_nat (length fr)) 2 (pre ++ frame_bytes fr ++ post)
    (Z.of_nat (length pre))
  = Ok (total (map reduced fr) / Z.of_nat (length fr)).
Proof.
  destruct fr as [|p0 rest]; [cbn; lia|]. intros _.
  unfold frame_sample.
  pose proof (get_sample_in_frame pre post [] rest p0) as H0.
  cbn [app length] in H0. rewrite Z.add_0_r in H0.
  rewrite H0. cbn [bind].
  rewrite Z.gtb_ltb.
  destruct (Z.ltb_spec 1 (Z.of_nat (length (p0 :: rest)))) as [Hc|Hc].
  - unfold py_range. change (1 =? 0) with false. change (1 >? 0) with true.
    cbv iota. cbn [bind].
    replace (Z.to_nat ((Z.of_nat (length (p0 :: rest)) - 1 + 1 - 1) / 1))
      with (length rest) by (rewrite Z.div_1_r; cbn [length]; lia).
    rewrite (fold_channels
               (fun ch => get_sample 2 (pre ++ frame_bytes (p0 :: rest) ++ post)
                            (Z.of_nat (length pre) + ch * 2))
               (fun k => reduced (nth k rest p0))).
    + cbn [bind]. rewrite <- (map_map (fun k => nth k rest p0) reduced).
      rewrite map_nth_seq. reflexivity.
    + intros k Hk. apply in_seq in Hk.
      destruct (nth_split rest p0 (n := k)) as (l1 & l2 & Hsplit & Hl1);
        [lia|].
      rewrite Hsplit at 1.
      pose proof (get_sample_in_frame pre post (p0 :: l1) l2 (nth k rest p0))
        as Hk'.
      cbn [app length] in Hk'. rewrite Hl1 in Hk'.
      replace (1 + Z.of_nat k * 1) with (Z.of_nat (S k)) by lia.
      exact Hk'.
  - assert (rest = []) as -> by (destruct rest; [reflexivity|cbn in Hc; lia]).
    cbn [map total fold_right length]. rewrite Z.add_0_r.
    change (Z.of_nat 1) with 1. rewrite Z.div_1_r. reflexivity.
Qed.

Lemma interleave_split (l1 l2 : list (list sample16)) (fr : list sample16) :
  interleave (l1 ++ fr :: l2)
  = interleave l1 ++ frame_bytes fr ++ interleave l2.
Proof. unfold interleave. rewrite flat_map_app. reflexivity. Qed.

(** The extraction loop on whole frames of [c] 16-bit channels. *)
Lemma mono_samples_interleaved (c : nat) (fs : list (list sample16)) :
  (1 <= c)%nat ->
  Forall (fun fr => length fr = c) fs ->
  mono_samples (Z.of_nat c) 2 (interleave fs)
  = Ok (map (fun fr => total (map reduced fr) / Z.of_nat c) fs).
Proof.
  intros Hc Hfs. unfold mono_samples, py_range.
  destruct (Z.eqb_spec (2 * Z.of_nat c) 0); [lia|].
  rewrite Z.gtb_ltb. destruct (Z.ltb_spec 0 (2 * Z.of_nat c)); [|lia].
  rewrite (interleave_length c) by exact Hfs.
  replace (Z.to_nat ((Z.of_nat (2 * c * length fs) - 0 + 2 * Z.of_nat c - 1)
                     / (2 * Z.of_nat c)))
    with (length fs).
  2:{ assert (E : (Z.of_nat (2 * c * length fs) - 0 + 2 * Z.of_nat c - 1)
                  / (2 * Z.of_nat c) = Z.of_nat (length fs))
        by (symmetry;
            apply Z.div_unique with (r := 2 * Z.of_nat c - 1); nia).
      rewrite E. lia. }
  cbn [bind]. rewrite collect_map_arg.
  rewrite (collect_map_ok _
             (fun k => total (map reduced (nth k fs [])) / Z.of_nat c)).
  - rewrite <- (map_map (fun k => nth k fs [])
                  (fun fr => total (map reduced fr) / Z.of_nat c)).
    rewrite map_nth_seq. reflexivity.
  - intros k Hk. apply in_seq in Hk.
    destruct (nth_split fs [] (n := k)) as (l1 & l2 & Hsplit & Hl1); [lia|].
    assert (Hfr : length (nth k fs []) = c).
    { rewrite Hsplit in Hfs. apply Forall_app in Hfs.
      destruct Hfs as [_ Hfs]. inversion Hfs; assumption. }
    assert (Hl1c : length (interleave l1) = (2 * c * k)%nat).
    { rewrite (interleave_length c), Hl1; [reflexivity|].
      rewrite Hsplit in Hfs. apply Forall_app in Hfs. apply Hfs. }
    rewrite Hsplit at 1. rewrite interleave_split.
    replace (0 + Z.of_nat k * (2 * Z.of_nat c))
      with (Z.of_nat (length (interleave l1))) by (rewrite Hl1c; lia).
    rewrite <- Hfr at 1. rewrite frame_sample_average by lia.
    rewrite Hfr. reflexivity.
Qed.

(** X9: downmix.  On whole frames of c >= 1 channels of 16-bit samples, the
    extraction loop of [main] never raises and yields, for each frame, the
    floor of the mean of its channels' 8-bit values: every channel is first
    reduced to 8 bits, then the reduced values are summed and divided by c
    with floor division. *)
Theorem downmix_averages_reduced_samples (c : nat)
  (fs : list (list sample16)) :
  (1 <= c)%nat ->
  Forall (fun fr => length fr = c) fs ->
  mono_samples (Z.of_nat c) 2 (interleave fs)
  = Ok (map (fun fr => total (map reduced fr) / Z.of_nat c) fs).
Proof. apply mono_samples_interleaved. Qed.

Lemma downmix_averages_reduced_samples_witness :
  mono_samples 2 2 [x00; x01; x00; x02; xff; xff; x00; x00] = Ok [1; -1].
Proof.
  apply (downmix_averages_reduced_samples 2
           [[(x00, x01); (x00, x02)]; [(xff, xff); (x00, x00)]]).
  - lia.
  - repeat constructor.
Defined.

Lemma total_repeat (x : Z) (c : nat) : total (repeat x c) = Z.of_nat c * x.
Proof.
  induction c as [|c IH]; [reflexivity|].
  cbn [repeat]. rewrite total_cons, IH. lia.
Qed.

(** X10: downmix symmetry.  Frames whose c channels all carry the same 16-bit
    sample give the same samples as the mono frames holding that sample
    once. *)
Theorem downmix_of_identical_channels (c : nat) (ps : list sample16) :
  (1 <= c)%nat ->
  mono_samples (Z.of_nat c) 2 (interleave (map (fun p => repeat p c) ps))
  = mono_samples 1 2 (interleave (map (fun p => [p]) ps)).
Proof.
  intros Hc.
  rewrite (mono_samples_interleaved c).
  - rewrite (mono_samples_interleaved 1).
    + rewrite !map_map. f_equal. apply map_ext. intros p.
      rewrite map_repeat, total_repeat, Z.mul_comm, Z.div_mul by lia.
      cbn [map total fold_right]. rewrite Z.add_0_r.
      change (Z.of_nat 1) with 1. rewrite Z.div_1_r. reflexivity.
    + lia.
    + apply Forall_forall. intros fr Hfr. apply in_map_iff in Hfr.
      destruct Hfr as (p & <- & _). reflexivity.
  - exact Hc.
  - apply Forall_forall. intros fr Hfr. apply in_map_iff in Hfr.
    destruct Hfr as (p & <- & _). apply repeat_length.
Qed.

Lemma downmix_of_identical_channels_witness :
  mono_samples 2 2 [x34; x12; x34; x12; x00; xfe; x00; xfe]
  = mono_samples 1 2 [x34; x12; x00; xfe].
Proof.
  apply (downmix_of_identical_channels 2 [(x34, x12); (x00, xfe)]). lia.
Defined.

(** *** The resampler *)

(** X11: downsampling by a whole factor.  When the source rate is k > 1
    times a positive target rate and the input has fewer than 2^53 - k
    samples, the floating cursor takes the exact values 0, k, 2k, ...: the
    loop ends within len + 1 tests and returns samples[0], samples[k],
    samples[2k], ..., which are ceil(len / k) samples. *)
Theorem downsampling_by_whole_factor (k target_rate : Z) (samples : list Z) :
  0 < target_rate -> 1 < k ->
  Z.of_nat (length samples) + k < 2 ^ 53 ->
  exists out,
    resample (S (length samples)) (k * target_rate) target_rate samples
    = Some (Ok out) /\
    out = map (fun i => nth (Z.to_nat (k * Z.of_nat i)) samples 0)
            (seq 0 (Z.to_nat ((Z.of_nat (length samples) + k - 1) / k))) /\
    Z.of_nat (length out) = (Z.of_nat (length samples) + k - 1) / k.
Proof.
  intros Ht Hk Hlen. eexists.
  split; [apply resample_whole_ratio; assumption|].
  split; [reflexivity|].
  rewrite length_map, length_seq. apply Z2Nat.id.
  apply Z.div_pos; lia.
Qed.

Lemma downsampling_by_whole_factor_witness :
  exists out,
    resample 8 44100 14700 [10; 11; 12; 13; 14; 15; 16] = Some (Ok out) /\
    out = [10; 13; 16] /\
    Z.of_nat (length out) = 3.
Proof.
  apply (downsampling_by_whole_factor 3 14700 [10; 11; 12; 13; 14; 15; 16]);
    try lia.
  cbn [length]. change (2 ^ 53) with 9007199254740992. lia.
Defined.

Lemma cursor_loop_in_range (fuel : nat) (len : Z) (ratio : spec_float) :
  forall idx js,
    cursor_loop fuel len ratio idx = Some (Ok js) ->
    Forall (fun j => 0 <= j < len) js.
Proof.
  induction fuel as [|fuel IH]; intros idx js H; [discriminate|].
  cbn [cursor_loop] in H.
  destruct (float_lt_int idx len); [|injection H as <-; constructor].
  destruct (py_int idx) as [i|e]; [|discriminate]. cbv zeta in H.
  set (j := if i <? 0 then i + len else i) in *.
  destruct (Z.ltb_spec j 0); [discriminate|].
  destruct (Z.leb_spec len j); [discriminate|]. cbn [orb] in H.
  destruct (cursor_loop fuel len ratio (float_add idx ratio))
    as [[js'|e]|] eqn:E; try discriminate.
  cbn [option_map result_map] in H. injection H as <-.
  constructor; [lia|]. apply (IH _ _ E).
Qed.

(** X12: the resampler only selects.  Whatever the two rates, every sample
    of an output it returns is a sample of its input: nothing is
    interpolated or invented. *)
Theorem resampler_only_selects (fuel : nat) (framerate target_rate : Z)
  (samples out : list Z) :
  resample fuel framerate target_rate samples = Some (Ok out) ->
  Forall (fun x => In x samples) out.
Proof.
  unfold resample. destruct (negb (target_rate =? framerate)).
  - destruct (py_truediv framerate target_rate) as [ratio|e];
      [|discriminate].
    rewrite resample_loop_cursor.
    destruct (cursor_loop fuel (Z.of_nat (length samples)) ratio
                (S754_zero false)) as [[js|e]|] eqn:E; try discriminate.
    cbn [option_map result_map app]. intros H. injection H as <-.
    apply cursor_loop_in_range in E.
    apply Forall_forall. intros x Hx. apply in_map_iff in Hx.
    destruct Hx as (j & <- & Hj).
    rewrite Forall_forall in E. specialize (E j Hj).
    apply nth_In. lia.
  - intros H. injection H as <-. apply Forall_forall. auto.
Qed.

Lemma resampler_only_selects_witness :
  Forall (fun x => In x [1; 2; 3; 4; 5; 6; 7; 8; 9; 10; 11; 12]) [1; 6; 12].
Proof.
  apply (resampler_only_selects 10 44100 8000
           [1; 2; 3; 4; 5; 6; 7; 8; 9; 10; 11; 12] [1; 6; 12]).
  vm_compute. reflexivity.
Defined.

(** X13: empty audio.  With a non-zero frame size, no frames give no samples,
    and steps 2 to 4 of [main] return the empty byte sequence as soon as the
    ratio of the rates exists (or the rates are equal); the loop is left at
    its first test. *)
Theorem empty_audio_gives_empty_output (fuel : nat)
  (nchannels sampwidth framerate target_rate : Z) :
  sampwidth * nchannels <> 0 ->
  target_rate = framerate \/
  (exists ratio, py_truediv framerate target_rate = Ok ratio) ->
  mono_samples nchannels sampwidth [] = Ok [] /\
  main_encode (S fuel) nchannels sampwidth framerate [] target_rate
  = Some (Ok []).
Proof.
  intros Hstep Hrate.
  assert (Hmono : mono_samples nchannels sampwidth [] = Ok []).
  { unfold mono_samples, py_range. cbn [length].
    destruct (Z.eqb_spec (sampwidth * nchannels) 0); [contradiction|].
    rewrite Z.gtb_ltb.
    destruct (Z.ltb_spec 0 (sampwidth * nchannels)).
    - rewrite Z.div_small by lia. reflexivity.
    - rewrite Z.div_small by lia. reflexivity. }
  split; [exact Hmono|].
  unfold main_encode, resample. rewrite Hmono.
  destruct (Z.eqb_spec target_rate framerate) as [_|Hne]; [reflexivity|].
  cbn [negb]. destruct Hrate as [Heq|[ratio ->]]; [contradiction|].
  reflexivity.
Qed.

Lemma empty_audio_gives_empty_output_witness :
  mono_samples 2 2 [] = Ok [] /\
  main_encode 1 2 2 44100 [] 8000 = Some (Ok []).
Proof.
  apply (empty_audio_gives_empty_output 0 2 2 44100 8000).
  - lia.
  - right. eexists. vm_compute. reflexivity.
Defined.

(** *** Steps 2 to 4 of main together *)

(** X22: the size of the output of [main].  On whole frames of c channels of
    16-bit samples, n frames encode to ceil(n / 8) bytes when the target
    rate equals the source rate, whatever the fuel, and to
    ceil(ceil(n / k) / 8) bytes when the source rate is k > 1 times a
    positive target rate (and n + k < 2^53); nothing is raised. *)
Theorem main_output_size (c : nat) (fs : list (list sample16))
  (k target_rate : Z) (fuel : nat) :
  (1 <= c)%nat ->
  Forall (fun fr => length fr = c) fs ->
  0 < target_rate -> 1 < k ->
  Z.of_nat (length fs) + k < 2 ^ 53 ->
  (exists out,
      main_encode fuel (Z.of_nat c) 2 target_rate (interleave fs) target_rate
      = Some (Ok out) /\
      Z.of_nat (length out) = (Z.of_nat (length fs) + 7) / 8) /\
  (exists out,
      main_encode (S (length fs)) (Z.of_nat c) 2 (k * target_rate)
        (interleave fs) target_rate
      = Some (Ok out) /\
      Z.of_nat (length out)
      = ((Z.of_nat (length fs) + k - 1) / k + 7) / 8).
Proof.
  intros Hc Hfs Ht Hk Hlen.
  pose proof (mono_samples_interleaved c fs Hc Hfs) as Hmono.
  set (samples := map (fun fr => total (map reduced fr) / Z.of_nat c) fs)
    in *.
  assert (Hn : length samples = length fs) by apply length_map.
  split.
  - destruct (EncoderFacts.encode_total samples)
      as (tr & out & _ & Ho & _ & _ & _ & _ & Hsize & _).
    exists out. unfold main_encode, resample. rewrite Hmono.
    rewrite Z.eqb_refl. cbn [negb]. rewrite Ho, Hsize, Hn.
    split; reflexivity.
  - pose proof (resample_whole_ratio k target_rate samples Ht Hk
                  ltac:(rewrite Hn; exact Hlen)) as Hres.
    rewrite Hn in Hres.
    match type of Hres with
    | _ = Some (Ok ?l) =>
        destruct (EncoderFacts.encode_total l)
          as (tr & out & _ & Ho & _ & _ & _ & _ & Hsize & _)
    end.
    exists out. unfold main_encode. rewrite Hmono, Hres, Ho, Hsize.
    split; [reflexivity|].
    rewrite length_map, length_seq, Z2Nat.id by (apply Z.div_pos; lia).
    reflexivity.
Qed.

Lemma main_output_size_witness :
  (exists out,
      main_encode 0 2 2 8000
        (interleave [[(x00, x01); (x00, x03)]; [(x00, x05); (x00, x07)];
                     [(x00, xf0); (x00, xf2)]]) 8000
      = Some (Ok out) /\
      Z.of_nat (length out) = 1) /\
  (exists out,
      main_encode 4 2 2 16000
        (interleave [[(x00, x01); (x00, x03)]; [(x00, x05); (x00, x07)];
                     [(x00, xf0); (x00, xf2)]]) 8000
      = Some (Ok out) /\
      Z.of_nat (length out) = 1).
Proof.
  apply (main_output_size 2
           [[(x00, x01); (x00, x03)]; [(x00, x05); (x00, x07)];
            [(x00, xf0); (x00, xf2)]] 2 8000 0); try lia.
  - repeat constructor.
  - cbn [length]. change (2 ^ 53) with 9007199254740992. lia.
Defined.

End WavMore.

(** ** The installer text *)

Module InstallerFacts.

Import Installer.

Lemma digit_value_hex_digit (d : Z) :
  0 <= d < 16 -> digit_value (hex_digit d) = Some d.
Proof.
  intros Hd.
  assert (Hc : d = 0 \/ d = 1 \/ d = 2 \/ d = 3 \/ d = 4 \/ d = 5 \/ d = 6 \/
               d = 7 \/ d = 8 \/ d = 9 \/ d = 10 \/ d = 11 \/ d = 12 \/
               d = 13 \/ d = 14 \/ d = 15) by lia.
  repeat (destruct Hc as [->|Hc]); try subst d; reflexivity.
Qed.

Lemma lua_reads_hex_data (bs : list Z) :
  Forall (fun v => 0 <= v < 256) bs ->
  lua_write_loop (hex_data bs) = Some bs.
Proof.
  induction 1 as [|b bs Hb _ IH]; [reflexivity|].
  change (hex_data (b :: bs))
    with (hex_digit (b / 16) :: hex_digit (b mod 16) :: hex_data bs).
  cbn [lua_write_loop].
  assert (Hq : 0 <= b / 16 < 16).
  { split; [apply Z.div_pos; lia|apply Z.div_lt_upper_bound; lia]. }
  pose proof (Z.mod_pos_bound b 16 ltac:(lia)) as Hm.
  rewrite !digit_value_hex_digit, IH by assumption.
  do 2 f_equal. pose proof (Z.div_mod b 16 ltac:(lia)). lia.
Qed.

Lemma hex_data_length (bs : list Z) :
  length (hex_data bs) = (2 * length bs)%nat.
Proof.
  induction bs as [|b bs IH]; [reflexivity|].
  change (hex_data (b :: bs))
    with (hex_digit (b / 16) :: hex_digit (b mod 16) :: hex_data bs).
  cbn [length]. rewrite IH. lia.
Qed.

(** *** Chunks *)

Lemma firstn_min_length {A : Type} (a : nat) (l : list A) :
  firstn (Nat.min a (length l)) l = firstn a l.
Proof.
  destruct (Nat.le_gt_cases a (length l)) as [H|H].
  - rewrite Nat.min_l by exact H. reflexivity.
  - rewrite Nat.min_r, firstn_all, firstn_all2 by lia. reflexivity.
Qed.

Lemma py_slice_chunk {A : Type} (s : list A) (k : nat) :
  (80 * k <= length s)%nat ->
  py_slice s (0 + Z.of_nat k * 80) (0 + Z.of_nat k * 80 + 80)
  = firstn 80 (skipn (80 * k) s).
Proof.
  intros Hk. unfold py_slice. cbv zeta.
  destruct (Z.ltb_spec (0 + Z.of_nat k * 80) 0); [lia|].
  destruct (Z.ltb_spec (0 + Z.of_nat k * 80 + 80) 0); [lia|].
  replace (Z.to_nat (Z.min (0 + Z.of_nat k * 80) (Z.of_nat (length s))))
    with (80 * k)%nat by lia.
  rewrite <- (firstn_min_length 80 (skipn (80 * k) s)), length_skipn.
  f_equal. lia.
Qed.

Lemma chunks_value (hex : str) :
  chunks hex
  = Ok (map (fun k => firstn 80 (skipn (80 * k) hex))
          (seq 0 ((length hex + 79) / 80))).
Proof.
  unfold chunks, py_range.
  change (80 =? 0) with false. change (80 >? 0) with true. cbv iota.
  cbn [bind].
  replace (Z.to_nat ((Z.of_nat (length hex) - 0 + 80 - 1) / 80))
    with ((length hex + 79) / 80)%nat.
  2:{ replace (Z.of_nat (length hex) - 0 + 80 - 1)
        with (Z.of_nat (length hex + 79)) by lia.
      change 80 with (Z.of_nat 80). rewrite <- Nat2Z.inj_div. lia. }
  rewrite map_map. f_equal. apply map_ext_in. intros k Hk.
  apply in_seq in Hk. apply py_slice_chunk.
  pose proof (Nat.Div0.mul_div_le (length hex + 79) 80). lia.
Qed.

Lemma concat_pieces {A : Type} (m : nat) :
  forall s : list A,
    (length s <= 80 * m)%nat ->
    concat (map (fun k => firstn 80 (skipn (80 * k) s)) (seq 0 m)) = s.
Proof.
  induction m as [|m IH]; intros s Hs.
  - destruct s; [reflexivity|cbn in Hs; lia].
  - cbn [seq map concat]. rewrite <- seq_shift, map_map.
    transitivity (firstn 80 s ++ skipn 80 s); [|apply firstn_skipn].
    f_equal.
    rewrite <- (IH (skipn 80 s)) by (rewrite length_skipn; lia).
    f_equal. apply map_ext. intros k.
    rewrite skipn_skipn. do 2 f_equal. lia.
Qed.

Lemma chunk_count_covers (n : nat) : (n <= 80 * ((n + 79) / 80))%nat.
Proof.
  pose proof (Nat.div_mod_eq (n + 79) 80).
  pose proof (Nat.mod_upper_bound (n + 79) 80 ltac:(lia)). lia.
Qed.

(** X14: the installer reproduces the encoded bytes.  For every byte
    sequence, as a bytearray holds it, the hexadecimal text is cut into
    chunks whose concatenation (the [table.concat] of the generated script)
    is read back by the script's write loop, two digits at a time, as
    exactly the original bytes. *)
Theorem installer_round_trip (bs : list Z) :
  Forall (fun v => 0 <= v < 256) bs ->
  exists cs,
    chunks (hex_data bs) = Ok cs /\
    concat cs = hex_data bs /\
    lua_write_loop (concat cs) = Some bs.
Proof.
  intros Hbs. eexists. split; [apply chunks_value|].
  assert (Hcat : concat
                   (map (fun k => firstn 80 (skipn (80 * k) (hex_data bs)))
                      (seq 0 ((length (hex_data bs) + 79) / 80)))
                 = hex_data bs)
    by (apply concat_pieces, chunk_count_covers).
  split; [exact Hcat|]. rewrite Hcat. apply lua_reads_hex_data. exact Hbs.
Qed.

Lemma installer_round_trip_witness :
  exists cs,
    chunks (hex_data [0; 102; 255; 16]) = Ok cs /\
    concat cs = hex_data [0; 102; 255; 16] /\
    lua_write_loop (concat cs) = Some [0; 102; 255; 16].
Proof.
  apply (installer_round_trip [0; 102; 255; 16]).
  repeat constructor; lia.
Defined.

(** X15: the shape of the chunks.  A text of n characters is cut into
    ceil(n / 80) chunks that concatenate to it; no chunk is empty, none is
    longer than 80 characters, and every chunk but the last has exactly
    80. *)
Theorem chunks_shape (hex : str) :
  exists cs,
    chunks hex = Ok cs /\
    concat cs = hex /\
    length cs = ((length hex + 79) / 80)%nat /\
    Forall (fun c => (1 <= length c <= 80)%nat) cs /\
    (forall i, (S i < length cs)%nat -> length (nth i cs []) = 80%nat).
Proof.
  eexists. split; [apply chunks_value|].
  set (m := ((length hex + 79) / 80)%nat).
  assert (Hm : (length hex <= 80 * m /\
                (m = 0 \/ 80 * (m - 1) < length hex))%nat).
  { unfold m. pose proof (Nat.div_mod_eq (length hex + 79) 80).
    pose proof (Nat.mod_upper_bound (length hex + 79) 80 ltac:(lia)). lia. }
  split; [apply concat_pieces; lia|].
  split; [rewrite length_map, length_seq; reflexivity|]. split.
  - apply Forall_forall. intros c Hc. apply in_map_iff in Hc.
    destruct Hc as (k & <- & Hk). apply in_seq in Hk.
    rewrite length_firstn, length_skipn. lia.
  - intros i Hi. rewrite length_map, length_seq in Hi.
    rewrite (nth_indep _ [] (firstn 80 (skipn (80 * 0) hex)))
      by (rewrite length_map, length_seq; lia).
    rewrite (map_nth (fun k => firstn 80 (skipn (80 * k) hex))).
    rewrite seq_nth by lia.
    rewrite length_firstn, length_skipn. lia.
Qed.

End InstallerFacts.

(** ** More on the manifest *)

Module ManifestMore.

Import Manifest ManifestFacts.
Open Scope string_scope.

(** Every normal return of [update_manifest], read backwards. *)
Lemma update_ok_inv (basename : string -> string)
  (input_title_path output_path : string) (s s' : fs) (msg : message) :
  update_manifest basename input_title_path output_path s = Ok (s', msg) ->
  exists d l,
    load (manifest s) = JDict d /\ scanned d l /\
    ((msg = UpdatedManifest /\ scan l (slashes output_path) = Ok false) \/
     (msg = AlreadyInManifest /\ scan l (slashes output_path) = Ok true /\
      s' = s /\ dict_get d "songs" = Some (JList l))).
Proof.
  unfold update_manifest.
  destruct (load (manifest s)) as [| | | | |l0|d] eqn:Hload;
    try discriminate.
  unfold songs_of, dict_mem.
  destruct (dict_get d "songs") as [v|] eqn:Hget; cbn [negb bind].
  - destruct v as [| | | |str|l|d1]; try discriminate.
    + destruct str; discriminate.
    + destruct (scan l (slashes output_path)) as [[|]|e] eqn:Hscan;
        cbn [bind negb]; try discriminate; intros H; injection H as <- <-;
        exists d, l; (split; [reflexivity|]); (split; [left; exact Hget|]).
      * right. split; [reflexivity|]. split; [exact Hscan|].
        split; [reflexivity|exact Hget].
      * left. split; [reflexivity|exact Hscan].
    + destruct d1; discriminate.
  - intros H. injection H as <- <-. exists d, [].
    split; [reflexivity|]. split; [right; split; [exact Hget|reflexivity]|].
    left. split; reflexivity.
Qed.

(** [slashes] turns every backslash into a forward slash and leaves every
    other character where it is. *)
Lemma slashes_chars (p : string) :
  chars (slashes p)
  = map (fun c => if Ascii.eqb c "\"%char then "/"%char else c) (chars p).
Proof.
  induction p as [|c p IH]; [reflexivity|].
  cbn [slashes chars map]. rewrite IH. reflexivity.
Qed.

Lemma slash_char_eq (a b : ascii) :
  (if Ascii.eqb a "\"%char then "/"%char else a)
  = (if Ascii.eqb b "\"%char then "/"%char else b)
  <-> (Ascii.eqb a b || (is_slash a && is_slash b)) = true.
Proof.
  unfold is_slash.
  rewrite Bool.orb_true_iff, Bool.andb_true_iff, !Bool.orb_true_iff.
  rewrite !Ascii.eqb_eq.
  destruct (Ascii.eqb_spec a "\"%char) as [Ha|Ha];
    destruct (Ascii.eqb_spec b "\"%char) as [Hb|Hb].
  - subst. tauto.
  - subst a. split.
    + intros <-. right. split; [left|right]; reflexivity.
    + intros [E|[_ [E|E]]]; congruence.
  - subst b. split.
    + intros ->. right. split; [right|left]; reflexivity.
    + intros [E|[[E|E] _]]; congruence.
  - split.
    + intros E. left. exact E.
    + intros [E|[[E|E] [E'|E']]]; congruence.
Qed.

(** Two paths have the same normal form exactly when they differ in the
    direction of their slashes at most. *)
Lemma slashes_same (p : string) :
  forall q, same_up_to_slashes p q = true <-> slashes p = slashes q.
Proof.
  induction p as [|a p IH]; intros [|b q]; cbn [same_up_to_slashes slashes].
  - split; reflexivity.
  - split; discriminate.
  - split; discriminate.
  - rewrite Bool.andb_true_iff, <- slash_char_eq, IH. split.
    + intros [-> ->]. reflexivity.
    + intros H. injection H as H1 H2. split; assumption.
Qed.

(** X16: the key is the normalized file.  After any call that returns
    normally, a call whose output path is the same up to the direction of
    its slashes (the same length and, at each position, the same character
    or two slashes of either direction) returns "already in manifest" and
    leaves the manifest and the write log as they are, whatever title path
    it is given; in particular every call is idempotent.  The normal form
    the two paths share has a forward slash for each backslash and every
    other character unchanged. *)
Theorem same_file_is_not_added_twice (basename : string -> string)
  (title1 title2 path1 path2 : string) (s s1 : fs) (msg : message) :
  same_up_to_slashes path1 path2 = true ->
  update_manifest basename title1 path1 s = Ok (s1, msg) ->
  update_manifest basename title2 path2 s1 = Ok (s1, AlreadyInManifest) /\
  slashes path2 = slashes path1 /\
  chars (slashes path1)
  = map (fun c => if Ascii.eqb c "\"%char then "/"%char else c)
      (chars path1).
Proof.
  intros Hsame H.
  apply slashes_same in Hsame. symmetry in Hsame.
  split; [|split; [exact Hsame|apply slashes_chars]].
  pose proof H as H'. apply update_ok_inv in H'.
  destruct H' as (d & l & Hload & Hsc & [[-> Hscan]|(-> & Hscan & -> & Hget)]).
  - pose proof (update_appends basename title1 path1 s d l Hload Hsc Hscan)
      as Hrun.
    cbv zeta in Hrun. rewrite Hrun in H. injection H as <-.
    eapply update_present.
    + reflexivity.
    + apply dict_get_set_same.
    + rewrite Hsame. apply scan_appended. exact Hscan.
  - eapply update_present; [exact Hload|exact Hget|].
    rewrite Hsame. exact Hscan.
Qed.

Lemma same_file_is_not_added_twice_witness :
  exists s1,
    update_manifest (fun p => p) "a.mp3" "music\songs/a.dfpwm"
      {| manifest := Missing; written := [] |}
    = Ok (s1, UpdatedManifest) /\
    update_manifest (fun p => p) "b.mp3" "music/songs\a.dfpwm" s1
    = Ok (s1, AlreadyInManifest) /\
    slashes "music/songs\a.dfpwm" = "music/songs/a.dfpwm".
Proof.
  eexists. split; [reflexivity|].
  destruct (same_file_is_not_added_twice (fun p => p)
              "a.mp3" "b.mp3" "music\songs/a.dfpwm" "music/songs\a.dfpwm"
              {| manifest := Missing; written := [] |} _ UpdatedManifest
              eq_refl eq_refl) as (Hrun & Hs & _).
  split; [exact Hrun|]. rewrite Hs. reflexivity.
Defined.

(** *** Catalogs *)

Lemma scan_catalog (f : string) (l : list json) :
  Forall is_entry l ->
  scan l f = Ok (negb (count_file f l =? 0)%nat).
Proof.
  unfold count_file. induction 1 as [|song l [e ->] _ IH]; [reflexivity|].
  cbn [scan filter has_file]. destruct (file_is e f); [reflexivity|].
  exact IH.
Qed.

Lemma has_file_new_entry (title f g : string) :
  has_file g (new_entry title f) = (f =? g).
Proof.
  unfold has_file, new_entry, file_is. cbn [dict_get].
  change ("title" =? "file") with false. change ("file" =? "file") with true.
  reflexivity.
Qed.

Lemma count_file_app (g : string) (l1 l2 : list json) :
  count_file g (l1 ++ l2) = (count_file g l1 + count_file g l2)%nat.
Proof. unfold count_file. rewrite filter_app, length_app. reflexivity. Qed.

Lemma update_on_catalog (basename : string -> string)
  (input_title_path output_path : string) (s : fs) :
  is_catalog (manifest s) ->
  exists s' msg,
    update_manifest basename input_title_path output_path s = Ok (s', msg) /\
    is_catalog (manifest s') /\
    count_file (slashes output_path) (songs_list (load (manifest s')))
    = Nat.max 1 (count_file (slashes output_path)
                   (songs_list (load (manifest s)))) /\
    (forall g, g <> slashes output_path ->
       count_file g (songs_list (load (manifest s')))
       = count_file g (songs_list (load (manifest s)))).
Proof.
  intros Hcat.
  destruct (catalog_loaded _ Hcat) as (d & l & Hload & Hsc & He).
  rewrite Hload, (scanned_songs_list d l Hsc).
  pose proof (scan_catalog (slashes output_path) l He) as Hscan.
  destruct (count_file (slashes output_path) l) as [|n] eqn:Hcount.
  - set (title := rsplit_dot_head (basename input_title_path)).
    set (l1 := (l ++ [new_entry title (slashes output_path)])%list).
    assert (Hget1 : dict_get (dict_set d "songs" (JList l1)) "songs"
                    = Some (JList l1)) by apply dict_get_set_same.
    eexists. exists UpdatedManifest.
    split; [apply (update_appends basename input_title_path output_path
                     s d l); assumption|].
    cbn [manifest load is_catalog songs_list]. fold title. fold l1.
    rewrite Hget1. split; [|split].
    + apply Forall_app. split; [exact He|].
      constructor; [eexists; reflexivity|constructor].
    + unfold l1. rewrite count_file_appended, Hcount. reflexivity.
    + intros g Hg. unfold l1. rewrite count_file_app.
      unfold count_file at 2. cbn [filter].
      rewrite has_file_new_entry.
      destruct (String.eqb_spec (slashes output_path) g);
        [congruence|cbn; lia].
  - destruct Hsc as [Hget|[Hnone ->]]; [|discriminate].
    exists s, AlreadyInManifest.
    split; [apply (update_present basename input_title_path output_path
                     s d l); assumption|].
    split; [exact Hcat|]. rewrite Hload.
    unfold songs_list. rewrite Hget, Hcount. split; [lia|reflexivity].
Qed.

(** X17: on a catalog the call never raises and keeps the catalog a catalog.
    It leaves the number of entries of every other file unchanged, and the
    number of entries of its own file becomes max(1, what it was): one entry
    is added exactly when there was none, so a catalog in which no file
    occurs twice stays so. *)
Theorem update_keeps_catalog (basename : string -> string)
  (input_title_path output_path : string) (s : fs) :
  is_catalog (manifest s) ->
  exists s' msg,
    update_manifest basename input_title_path output_path s = Ok (s', msg) /\
    is_catalog (manifest s') /\
    count_file (slashes output_path) (songs_list (load (manifest s')))
    = Nat.max 1 (count_file (slashes output_path)
                   (songs_list (load (manifest s)))) /\
    (forall g, g <> slashes output_path ->
       count_file g (songs_list (load (manifest s')))
       = count_file g (songs_list (load (manifest s)))).
Proof. apply update_on_catalog. Qed.

Lemma update_keeps_catalog_witness :
  exists s' msg,
    update_manifest (fun p => p) "a.mp3" "a.dfpwm"
      {| manifest := Document (JDict [("songs", JList [])]); written := [] |}
    = Ok (s', msg) /\
    is_catalog (manifest s').
Proof.
  destruct (update_keeps_catalog (fun p => p) "a.mp3" "a.dfpwm"
              {| manifest := Document (JDict [("songs", JList [])]);
                 written := [] |} (Forall_nil _))
    as (s' & msg & Hrun & Hcat & _).
  exists s', msg. split; assumption.
Defined.

(** *** The scan stops at the first match *)

Lemma scan_prefix (f : string) (pre rest : list json) :
  Forall is_entry pre -> count_file f pre = 0%nat ->
  scan (pre ++ rest) f = scan rest f.
Proof.
  unfold count_file. induction 1 as [|song pre [e ->] _ IH]; intros Hc;
    [reflexivity|].
  cbn [app scan filter has_file] in *.
  destruct (file_is e f); [discriminate|]. apply IH. exact Hc.
Qed.

(** X18: the scan stops at the first match.  When the songs begin with
    objects of other files, what comes next decides: an object of the file
    makes the call a no-op, whatever follows it, even entries that are not
    objects; an entry that is not an object makes the call raise
    AttributeError, even if an object of the file follows. *)
Theorem first_match_decides (basename : string -> string)
  (input_title_path output_path : string) (s : fs) (d : dict)
  (pre post : list json) (x : json) :
  load (manifest s) = JDict d ->
  dict_get d "songs" = Some (JList (pre ++ x :: post)) ->
  Forall is_entry pre ->
  count_file (slashes output_path) pre = 0%nat ->
  has_file (slashes output_path) x = true \/ ~ is_entry x ->
  update_manifest basename input_title_path output_path s
  = if has_file (slashes output_path) x then Ok (s, AlreadyInManifest)
    else Raise AttributeError.
Proof.
  intros Hload Hget Hpre Hcount Hx.
  assert (Hscan : scan (pre ++ x :: post) (slashes output_path)
                  = scan (x :: post) (slashes output_path))
    by (apply scan_prefix; assumption).
  destruct x as [| | | | | |e];
    try (unfold update_manifest, songs_of, dict_mem;
         rewrite Hload, Hget; cbn [negb bind]; rewrite Hscan; reflexivity).
  cbn [has_file] in *.
  destruct (file_is e (slashes output_path)) eqn:Hfile.
  - apply (update_present basename input_title_path output_path s d
             (pre ++ JDict e :: post) Hload Hget).
    rewrite Hscan. cbn [scan]. rewrite Hfile. reflexivity.
  - destruct Hx as [Hx|Hx]; [discriminate|].
    exfalso. apply Hx. eexists. reflexivity.
Qed.

Lemma first_match_decides_witness :
  update_manifest (fun p => p) "a.mp3" "a.dfpwm"
    {| manifest :=
         Document
           (JDict [("songs",
                    JList [new_entry "b" "b.dfpwm"; new_entry "a" "a.dfpwm";
                           JInt 7])]);
       written := [] |}
  = Ok ({| manifest :=
             Document
               (JDict [("songs",
                        JList [new_entry "b" "b.dfpwm";
                               new_entry "a" "a.dfpwm"; JInt 7])]);
           written := [] |}, AlreadyInManifest).
Proof.
  apply (first_match_decides (fun p => p) "a.mp3" "a.dfpwm" _
           [("songs",
             JList [new_entry "b" "b.dfpwm"; new_entry "a" "a.dfpwm";
                    JInt 7])]
           [new_entry "b" "b.dfpwm"] [JInt 7] (new_entry "a" "a.dfpwm")).
  - reflexivity.
  - reflexivity.
  - repeat constructor. eexists. reflexivity.
  - reflexivity.
  - left. reflexivity.
Defined.

(** *** Two files *)

(** X19: entries are told apart by file, not by title.  On a catalog holding
    neither of two different normalized files, two calls, whatever their
    titles, append two entries after the existing songs, in call order, and
    write the manifest twice. *)
Theorem two_files_two_entries (basename : string -> string)
  (title1 title2 path1 path2 : string) (s : fs) :
  is_catalog (manifest s) ->
  slashes path1 <> slashes path2 ->
  count_file (slashes path1) (songs_list (load (manifest s))) = 0%nat ->
  count_file (slashes path2) (songs_list (load (manifest s))) = 0%nat ->
  exists s1 s2 doc1 doc2,
    update_manifest basename title1 path1 s = Ok (s1, UpdatedManifest) /\
    update_manifest basename title2 path2 s1 = Ok (s2, UpdatedManifest) /\
    manifest s2 = Document doc2 /\
    written s2 = (written s ++ [doc1; doc2])%list /\
    songs_list doc2
    = (songs_list (load (manifest s))
       ++ [new_entry (rsplit_dot_head (basename title1)) (slashes path1);
           new_entry (rsplit_dot_head (basename title2)) (slashes path2)])%list.
Proof.
  intros Hcat Hne Hc1 Hc2.
  destruct (catalog_loaded _ Hcat) as (d & l & Hload & Hsc & He).
  rewrite Hload, (scanned_songs_list d l Hsc) in *.
  set (e1 := new_entry (rsplit_dot_head (basename title1)) (slashes path1)).
  set (e2 := new_entry (rsplit_dot_head (basename title2)) (slashes path2)).
  set (d1 := dict_set d "songs" (JList (l ++ [e1]))).
  set (d2 := dict_set d "songs" (JList ((l ++ [e1]) ++ [e2]))).
  pose proof (update_appends basename title1 path1 s d l Hload Hsc
                (scan_absent _ l He Hc1)) as Hrun1.
  cbv zeta in Hrun1. fold e1 in Hrun1. fold d1 in Hrun1.
  assert (He1 : Forall is_entry (l ++ [e1])).
  { apply Forall_app. split; [exact He|].
    constructor; [eexists; reflexivity|constructor]. }
  assert (Hc21 : count_file (slashes path2) (l ++ [e1]) = 0%nat).
  { rewrite count_file_app, Hc2. unfold count_file, e1. cbn [filter].
    rewrite has_file_new_entry.
    destruct (String.eqb_spec (slashes path1) (slashes path2));
      [contradiction|reflexivity]. }
  pose proof (update_appends basename title2 path2
                {| manifest := Document (JDict d1);
                   written := (written s ++ [JDict d1])%list |}
                d1 (l ++ [e1]) eq_refl
                (or_introl (dict_get_set_same d "songs" (JList (l ++ [e1]))))
                (scan_absent _ _ He1 Hc21)) as Hrun2.
  cbv zeta in Hrun2. fold e2 in Hrun2.
  assert (Hd : dict_set d1 "songs" (JList ((l ++ [e1]) ++ [e2])) = d2)
    by (unfold d1, d2; apply dict_set_set).
  rewrite Hd in Hrun2. cbn [written] in Hrun2.
  do 2 eexists. exists (JDict d1), (JDict d2).
  split; [exact Hrun1|]. split; [exact Hrun2|].
  cbn [manifest written]. split; [reflexivity|].
  split; [rewrite <- app_assoc; reflexivity|].
  unfold songs_list, d2. rewrite dict_get_set_same, <- app_assoc.
  reflexivity.
Qed.

Lemma two_files_two_entries_witness :
  exists s1 s2 doc1 doc2,
    update_manifest (fun p => p) "x/song.mp3" "x\song.dfpwm"
      {| manifest := Garbled; written := [] |} = Ok (s1, UpdatedManifest) /\
    update_manifest (fun p => p) "y/song.mp3" "y\song.dfpwm" s1
    = Ok (s2, UpdatedManifest) /\
    manifest s2 = Document doc2 /\
    written s2 = [doc1; doc2] /\
    songs_list doc2
    = [new_entry "x/song" "x/song.dfpwm"; new_entry "y/song" "y/song.dfpwm"].
Proof.
  apply (two_files_two_entries (fun p => p)
           "x/song.mp3" "y/song.mp3" "x\song.dfpwm" "y\song.dfpwm"
           {| manifest := Garbled; written := [] |}).
  - exact I.
  - discriminate.
  - reflexivity.
  - reflexivity.
Defined.

(** *** Titles *)

Lemma has_dot_before_dot (stem ext : string) :
  has_dot (stem ++ String "." ext) = true.
Proof.
  induction stem as [|c stem IH]; [reflexivity|].
  cbn [append has_dot]. rewrite IH. apply orb_true_r.
Qed.

(** X20: the title drops the last extension only.  For a name
    stem.ext whose extension holds no dot, [rsplit('.', 1)[0]] is the stem,
    dots of the stem included; a name without any dot is kept whole. *)
Theorem rsplit_drops_last_extension (stem ext : string) :
  has_dot ext = false ->
  rsplit_dot_head (stem ++ String "." ext) = stem /\
  rsplit_dot_head ext = ext.
Proof.
  intros Hext. split.
  - induction stem as [|c stem IH].
    + cbn [append rsplit_dot_head]. rewrite Hext. reflexivity.
    + cbn [append rsplit_dot_head]. rewrite has_dot_before_dot, IH.
      reflexivity.
  - induction ext as [|c ext IH]; [reflexivity|].
    cbn [has_dot] in Hext. apply orb_false_iff in Hext.
    destruct Hext as [Hc Hext].
    cbn [rsplit_dot_head]. rewrite Hext, Hc, (IH Hext). reflexivity.
Qed.

Lemma rsplit_drops_last_extension_witness :
  rsplit_dot_head "my.song.v2.mp3" = "my.song.v2" /\
  rsplit_dot_head "mp3" = "mp3".
Proof.
  apply (rsplit_drops_last_extension "my.song.v2" "mp3"). reflexivity.
Defined.

End ManifestMore.

(** ** process_file *)

Module ConvertFacts.

Import Manifest ManifestFacts ManifestMore Convert.
Open Scope string_scope.

(** X21: [process_file], once the WAV frames are read, cannot fail before
    the DFPWM file is written, whatever the manifest holds: the file is named
    after the input with its last extension replaced by ".dfpwm", holds
    ceil(n / 8) bytes for the n = len(frames) // 2 samples, and the run ends
    as [update_manifest] on that name ends, with the file already on disk.
    On a catalog that update returns normally and the manifest then holds an
    entry for the normalized name of the file. *)
Theorem process_frames_writes_and_registers (basename : string -> string)
  (mp3_filename : string) (frames : list byte) (s : fs) :
  let name := rsplit_dot_head mp3_filename ++ ".dfpwm" in
  exists data,
    process_frames basename mp3_filename frames s
    = Ok ({| dfpwm_filename := name; dfpwm_data := data |},
          update_manifest basename mp3_filename name s) /\
    Z.of_nat (length data) = (Z.of_nat (length frames / 2) + 7) / 8 /\
    Forall (fun v => 0 <= v < 256) data /\
    (is_catalog (manifest s) ->
     exists s' msg,
       update_manifest basename mp3_filename name s = Ok (s', msg) /\
       is_catalog (manifest s') /\
       (1 <= count_file (slashes name)
               (songs_list (load (manifest s'))))%nat).
Proof.
  intros name. unfold process_frames.
  rewrite WavMore.process_file_samples_ok. cbn [bind].
  match goal with
  | |- context [Encoder.encode_dfpwm ?l] =>
      destruct (EncoderFacts.encode_total l)
        as (tr & data & _ & Ho & _ & _ & _ & Hb & Hn & _)
  end.
  rewrite Ho. cbn [bind]. fold name.
  exists data. split; [reflexivity|]. split.
  - rewrite Hn, length_map, length_seq. reflexivity.
  - split; [exact Hb|]. intros Hcat.
    destruct (update_on_catalog basename mp3_filename name s Hcat)
      as (s' & msg & Hrun & Hcat' & Hcount & _).
    exists s', msg. split; [exact Hrun|]. split; [exact Hcat'|].
    rewrite Hcount. lia.
Qed.

Lemma process_frames_writes_and_registers_witness :
  (exists data s' msg,
     process_frames (fun p => p) "songs\tune.mp3"
       [x00; x10; x00; xf0; x7f]
       {| manifest := Missing; written := [] |}
     = Ok ({| dfpwm_filename := "songs\tune.dfpwm"; dfpwm_data := data |},
           Ok (s', msg)) /\
     Z.of_nat (length data) = 1 /\
     (1 <= count_file "songs/tune.dfpwm"
             (songs_list (load (manifest s'))))%nat) /\
  (exists data e,
     process_frames (fun p => p) "songs\tune.mp3"
       [x00; x10; x00; xf0; x7f]
       {| manifest := Document (JList []); written := [] |}
     = Ok ({| dfpwm_filename := "songs\tune.dfpwm"; dfpwm_data := data |},
           Raise e) /\
     Z.of_nat (length data) = 1).
Proof.
  split.
  - destruct (process_frames_writes_and_registers (fun p => p)
                "songs\tune.mp3" [x00; x10; x00; xf0; x7f]
                {| manifest := Missing; written := [] |})
      as (data & Hrun & Hlen & _ & Hcat).
    destruct (Hcat I) as (s' & msg & Hup & _ & Hcount).
    exists data, s', msg. rewrite Hrun, Hup.
    split; [reflexivity|]. split; assumption.
  - destruct (process_frames_writes_and_registers (fun p => p)
                "songs\tune.mp3" [x00; x10; x00; xf0; x7f]
                {| manifest := Document (JList []); written := [] |})
      as (data & Hrun & Hlen & _ & _).
    exists data. eexists. rewrite Hrun.
    split; [reflexivity|]. exact Hlen.
Defined.

End ConvertFacts.
